(** * clinicalapp: the audio capture pipeline and the speaker tracker

  A shallow embedding of the streaming core of the application:
  - [DeepgramProvider.convertFloat32ToInt16] and [downsampleBuffer]
    (src/services/stt/DeepgramProvider.ts; the AssemblyAI provider carries
    the same encoder),
  - the voice-activity gate with pre-roll installed on the worklet port by
    [DeepgramProvider.startListening],
  - the reconnecting transport ([initialize], [attemptReconnect],
    [disconnect], [handleMessage]),
  - [VoiceAnalyzer] (src/services/speaker-detection/VoiceAnalyzer.ts).

  Numbers.  A JavaScript number that holds a finite value is a rational, and
  the samples of a [Float32Array] are finite rationals with a 24-bit
  significand.  Numbers are modelled as exact rationals [Q]: the products
  [s * 0x7fff] and [s * 0x8000] of the encoder are exact in binary64 for
  such samples, so the encoder is modelled without loss; sums, quotients
  and the literals 0.01, 0.1, 0.5, 0.7 are taken exactly where binary64
  would round them.  NaN and the infinities are outside the model.

  The resampler is the one place where the rounding of binary64 decides
  what the claims say: the number of output samples and the limits of
  the input blocks are [Math.round] of a binary64 quotient and of binary64
  products, and the means are stored as float32.  [downsampleBuffer] is
  therefore embedded twice: over the rationals ([Resampler]), which is
  what the gate and the range results use, and over IEEE 754 binary64
  ([Binary64], [Resampler64]), which is what its length and block laws
  are proved of. *)

From Stdlib Require Import ZArith QArith Qround Qabs Bool String List Lia Lqa.
From Stdlib Require Import SpecFloat.
Import ListNotations.

Local Open Scope Z_scope.
Local Open Scope Q_scope.

(** ** The JavaScript numeric primitives the code calls *)

Module JS.

Definition Qlt_bool (a b : Q) : bool := negb (Qle_bool b a).

(** [Math.max(a, b)] and [Math.min(a, b)]. *)
Definition Math_max (a b : Q) : Q := if Qle_bool a b then b else a.
Definition Math_min (a b : Q) : Q := if Qle_bool a b then a else b.

(** [Math.abs(a)]. *)
Definition Math_abs (a : Q) : Q := if Qle_bool 0 a then a else - a.

(** [Math.round(x)]: the integer nearest to [x], ties towards +infinity. *)
Definition Math_round (x : Q) : Z := Qfloor (x + (1 # 2)).

(** [Math.floor(x)]. *)
Definition Math_floor (x : Q) : Z := Qfloor x.

(** ECMAScript's truncate(x): the fractional part is dropped, so the
    result is [floor x] for [x >= 0] and [ceiling x] below zero. *)
Definition truncate (x : Q) : Z :=
  if Qle_bool 0 x then Qfloor x else Qceiling x.

(** ToInt16, the conversion applied by a store into an [Int16Array]:
    truncate, reduce modulo 2^16, and read the result as a signed
    16-bit integer. *)
Definition ToInt16 (x : Q) : Z :=
  let int16bit := (truncate x mod 65536)%Z in
  if (32768 <=? int16bit)%Z then (int16bit - 65536)%Z else int16bit.

(** The bytes behind one element of an [Int16Array] (two's complement,
    low byte first) and behind the whole array ([array.buffer]). *)
Definition int16_bytes (x : Z) : list Z :=
  [(x mod 256)%Z; ((x / 256) mod 256)%Z].

Definition buffer_of (a : list Z) : list Z := flat_map int16_bytes a.

(** Reading two bytes back as a little-endian signed 16-bit integer. *)
Definition int16_of_le (lo hi : Z) : Z :=
  let u := (lo + 256 * hi)%Z in
  if (32768 <=? u)%Z then (u - 65536)%Z else u.

(** A byte buffer read as little-endian signed 16-bit integers. *)
Fixpoint read_le (bytes : list Z) : list Z :=
  match bytes with
  | lo :: hi :: rest => int16_of_le lo hi :: read_le rest
  | _ => []
  end.

(** [array.shift()] leaves the array without its first element. *)
Definition shift {A} (l : list A) : list A := tl l.

(** [array.slice(-n)]: the last [n] elements (all of them when the array is
    shorter). *)
Definition slice_last {A} (n : nat) (l : list A) : list A :=
  skipn (length l - n) l.

(** Sum of a list of numbers, added left to right from 0, as
    [reduce((a, b) => a + b, 0)] and the accumulation loops do. *)
Definition sum (l : list Q) : Q := fold_left Qplus l 0.

End JS.

(** ** PCM encoder: [convertFloat32ToInt16] *)

Module PCM.
Import JS.

(** One iteration of the loop body:
    [let s = Math.max(-1, Math.min(1, buffer[i]));
     result[i] = s < 0 ? s * 0x8000 : s * 0x7fff;] *)
Definition clamp (x : Q) : Q := Math_max (-1) (Math_min 1 x).

Definition scaled (x : Q) : Q :=
  let s := clamp x in
  if Qlt_bool s 0 then s * 32768 else s * 32767.

Definition convertSample (x : Q) : Z := ToInt16 (scaled x).

Definition convertFloat32ToInt16 (buffer : list Q) : list Z :=
  map convertSample buffer.

(** The bytes handed to [ws.send(pcm16.buffer)]. *)
Definition encode (buffer : list Q) : list Z :=
  buffer_of (convertFloat32ToInt16 buffer).

(** The encoder as the specification words it: clamp, then
    [round(s * 32767)] for [s >= 0] and [round(s * 32768)] for [s < 0]. *)
Definition spec_convertSample (x : Q) : Z :=
  let s := clamp x in
  if Qlt_bool s 0 then Math_round (s * 32768) else Math_round (s * 32767).

(** The inverse mapping of the round-trip property.  The repository has no
    decoder; this one undoes the asymmetric scaling of the encoder:
    a negative code is divided by 32768, the others by 32767. *)
Definition decode (i : Z) : Q :=
  if (i <? 0)%Z then inject_Z i / 32768 else inject_Z i / 32767.

End PCM.

(** ** Frame resampler: [downsampleBuffer], over the rationals *)

(** Quotients, products and sums are exact here; [Resampler64] below is the
    same function in the arithmetic of the code. *)

Module Resampler.
Import JS.

(** The inner loop
    [for (let i = offsetBuffer; i < nextOffsetBuffer && i < buffer.length; i++)
       { accum += buffer[i]; count++; }]
    run over [rest], the part of [buffer] from index [i] on: the test
    [i < buffer.length] is the test that [rest] is not empty. *)
Fixpoint block_loop (rest : list Q) (i nextOffsetBuffer : Z)
         (accum : Q) (count : Z) : Q * Z :=
  match rest with
  | [] => (accum, count)
  | x :: rest' =>
      if (i <? nextOffsetBuffer)%Z
      then block_loop rest' (i + 1)%Z nextOffsetBuffer (accum + x) (count + 1)%Z
      else (accum, count)
  end.

(** The outer loop [while (offsetResult < result.length)], with
    [remaining = result.length - offsetResult] iterations to go; the
    elements written to [result] are returned in index order. *)
Fixpoint fill (remaining : nat) (buffer : list Q) (sampleRateRatio : Q)
         (offsetResult offsetBuffer : Z) : list Q :=
  match remaining with
  | O => []
  | S remaining' =>
      let nextOffsetBuffer :=
        Math_round (inject_Z (offsetResult + 1) * sampleRateRatio) in
      let '(accum, count) :=
        block_loop (skipn (Z.to_nat offsetBuffer) buffer)
                   offsetBuffer nextOffsetBuffer 0 0%Z in
      (if (count =? 0)%Z then 0 else accum / inject_Z count)
        :: fill remaining' buffer sampleRateRatio
                (offsetResult + 1)%Z nextOffsetBuffer
  end.

Definition newLength (buffer : list Q) (sampleRateRatio : Q) : Z :=
  Math_round (inject_Z (Z.of_nat (length buffer)) / sampleRateRatio).

(** [new Float32Array(newLength)] needs a length that is not negative, which
    it is for positive rates; the loop then runs [newLength] times. *)
Definition downsampleBuffer (buffer : list Q) (srcRate dstRate : Q) : list Q :=
  if Qeq_bool dstRate srcRate then buffer
  else
    let sampleRateRatio := srcRate / dstRate in
    fill (Z.to_nat (newLength buffer sampleRateRatio)) buffer
         sampleRateRatio 0%Z 0%Z.

(** Arithmetic mean, 0 for the empty list. *)
Definition mean (l : list Q) : Q :=
  match l with
  | [] => 0
  | _ => fold_right Qplus 0 l / inject_Z (Z.of_nat (length l))
  end.

End Resampler.

(** ** JavaScript numbers as IEEE 754 binary64 values *)

(** A number is a [spec_float] of the Standard Library: a signed zero, a
    signed infinity, NaN, or a finite [(-1)^s * m * 2^e].  The operations
    are the library's, at precision 53 and maximal exponent 1024, rounding
    to nearest, ties to even.  NaN has no payload; JavaScript cannot observe
    one. *)

Module Binary64.
Local Open Scope Z_scope.

Definition number := spec_float.

Definition prec : Z := 53.
Definition emax : Z := 1024.

Definition add : number -> number -> number := SFadd prec emax.
Definition mul : number -> number -> number := SFmul prec emax.
Definition div : number -> number -> number := SFdiv prec emax.

Definition zero : number := S754_zero false.

(** The number of an integer literal or of an integer counter: exact up to
    [2^53], which array lengths and indices never exceed. *)
Definition ofZ (z : Z) : number := binary_normalize prec emax z 0 false.

(** [x === y] on numbers: NaN differs from itself, [+0] equals [-0]. *)
Definition strictEq : number -> number -> bool := SFeqb.

(** The store of a number into a [Float32Array]: rounded to binary32
    (precision 24, maximal exponent 128), which overflows to an infinity and
    underflows to a zero; what is read back is that value as a binary64. *)
Definition fround (x : number) : number :=
  match x with
  | S754_finite s m e =>
      match binary_round 24 128 s m e with
      | S754_finite s' m' e' => binary_round prec emax s' m' e'
      | y => y
      end
  | _ => x
  end.

(** The results of [Math.round], which are integers, infinities or NaN.
    ([-0] is [Int 0]: the code compares the result and uses it as a length
    and as an index, where the two zeros are the same.) *)
Inductive Integer := Int (z : Z) | PosInf | NegInf | NotANumber.

(** [Math.round(x)] is [floor(x + 1/2)] computed exactly:
    for [x = n * 2^(-p)] it is [floor((2n + 2^p) / 2^(p+1))]. *)
Definition Math_round (x : number) : Integer :=
  match x with
  | S754_zero _ => Int 0
  | S754_infinity false => PosInf
  | S754_infinity true => NegInf
  | S754_nan => NotANumber
  | S754_finite s m e =>
      let n := if s then Z.neg m else Z.pos m in
      match e with
      | Z.neg p => Int ((2 * n + 2 ^ Z.pos p) / (2 * 2 ^ Z.pos p))
      | _ => Int (n * 2 ^ e)
      end
  end.

(** [a < b], false when either side is NaN. *)
Definition ltb (a b : Integer) : bool :=
  match a, b with
  | NotANumber, _ | _, NotANumber => false
  | Int x, Int y => x <? y
  | Int _, PosInf => true
  | Int _, NegInf => false
  | NegInf, NegInf => false
  | NegInf, _ => true
  | PosInf, _ => false
  end.

(** [new Float32Array(length)]: the length goes through ToIndex, which takes
    NaN to 0 and throws a RangeError ([None]) below 0 and above [2^53 - 1].
    Memory is taken to suffice for a length that passes. *)
Definition Float32Array_new (length : Integer) : option nat :=
  match length with
  | NotANumber => Some O
  | Int z => if (0 <=? z) && (z <=? 2 ^ 53 - 1) then Some (Z.to_nat z) else None
  | PosInf | NegInf => None
  end.


(** A number whose sign bit is [s], or NaN. *)
Definition signed (s : bool) (x : number) : Prop :=
  match x with
  | S754_nan => True
  | S754_zero s' | S754_infinity s' | S754_finite s' _ _ => s' = s
  end.

(** An offset from which the inner loop of the resampler reads existing
    elements only, or does not run. *)
Definition indexable (i : Integer) : Prop :=
  match i with
  | Int z => 0 <= z
  | PosInf | NotANumber => True
  | NegInf => False
  end.

End Binary64.

(** ** Frame resampler: [downsampleBuffer], in binary64 *)

Module Resampler64.
Import Binary64.
Local Open Scope Z_scope.

(** How a call ends: it returns an array, or [new Float32Array] throws.
    [Unmodelled] stands for the two cases that [for_loop] below leaves out,
    which no call reaches. *)
Inductive Completion :=
| Returns (result : list number)
| RangeError
| Unmodelled.

(** The inner loop
    [for (let i = offsetBuffer; i < nextOffsetBuffer && i < buffer.length; i++)
       { accum += buffer[i]; count++; }]
    from an index [i >= 0], run over [rest], the part of [buffer] from
    index [i] on: the test [i < buffer.length] is the test that [rest] is
    not empty. *)
Fixpoint block_loop (rest : list number) (i : Z) (nextOffsetBuffer : Integer)
         (accum : number) (count : Z) : number * Z :=
  match rest with
  | [] => (accum, count)
  | x :: rest' =>
      if ltb (Int i) nextOffsetBuffer
      then block_loop rest' (i + 1) nextOffsetBuffer (add accum x) (count + 1)
      else (accum, count)
  end.

(** The inner loop from [offsetBuffer], with [accum = 0, count = 0].  When
    the first test [i < nextOffsetBuffer] fails the body does not run.  When
    it holds from a negative index the code reads [buffer[i]] where there is
    no element, and from [-Infinity] it does not end: these two cases are
    left out ([None]); [downsampleBuffer] does not reach them
    ([Resampler64Facts.downsampleBuffer_completes]). *)
Definition for_loop (buffer : list number)
           (offsetBuffer nextOffsetBuffer : Integer) : option (number * Z) :=
  if ltb offsetBuffer nextOffsetBuffer then
    match offsetBuffer with
    | Int z =>
        if 0 <=? z
        then Some (block_loop (skipn (Z.to_nat z) buffer) z nextOffsetBuffer zero 0)
        else None
    | _ => None
    end
  else Some (zero, 0).

(** The outer loop [while (offsetResult < result.length)], with
    [remaining = result.length - offsetResult] iterations to go; the
    elements written to [result] are returned in index order. *)
Fixpoint fill (remaining : nat) (buffer : list number) (sampleRateRatio : number)
         (offsetResult : Z) (offsetBuffer : Integer) : option (list number) :=
  match remaining with
  | O => Some []
  | S remaining' =>
      let nextOffsetBuffer :=
        Math_round (mul (ofZ (offsetResult + 1)) sampleRateRatio) in
      match for_loop buffer offsetBuffer nextOffsetBuffer with
      | None => None
      | Some (accum, count) =>
          match fill remaining' buffer sampleRateRatio
                     (offsetResult + 1) nextOffsetBuffer with
          | None => None
          | Some result =>
              Some (fround (if count =? 0 then zero else div accum (ofZ count))
                      :: result)
          end
      end
  end.

Definition newLength (buffer : list number) (sampleRateRatio : number) : Integer :=
  Math_round (div (ofZ (Z.of_nat (length buffer))) sampleRateRatio).

Definition downsampleBuffer (buffer : list number) (srcRate dstRate : number)
  : Completion :=
  if strictEq dstRate srcRate then Returns buffer
  else
    let sampleRateRatio := div srcRate dstRate in
    match Float32Array_new (newLength buffer sampleRateRatio) with
    | None => RangeError
    | Some n =>
        match fill n buffer sampleRateRatio 0 (Int 0) with
        | Some result => Returns result
        | None => Unmodelled
        end
    end.

(** The limits of the input blocks: 0, then [Math.round(k * r)] with the
    product in binary64. *)
Definition boundary (r : number) (k : nat) : Integer :=
  match k with
  | O => Int 0
  | S _ => Math_round (mul (ofZ (Z.of_nat k)) r)
  end.

(** The elements of [buffer] at the indices [lo <= i < hi] that exist. *)
Definition slice (buffer : list number) (lo hi : Integer) : list number :=
  match lo, hi with
  | Int l, Int h => firstn (Z.to_nat (h - l)) (skipn (Z.to_nat l) buffer)
  | Int l, PosInf => skipn (Z.to_nat l) buffer
  | _, _ => []
  end.

(** The input block of output sample [k]. *)
Definition block (buffer : list number) (r : number) (k : nat) : list number :=
  slice buffer (boundary r k) (boundary r (S k)).

(** The sum as the loop forms it, from 0 and in index order, and the
    quotient by the count with no guard: [0 / 0], which is NaN, for the
    empty list. *)
Definition sum (l : list number) : number := fold_left add l zero.

Definition mean (l : list number) : number :=
  div (sum l) (ofZ (Z.of_nat (length l))).




End Resampler64.

(** ** Voice-activity gate with pre-roll: the [node.port.onmessage] handler *)

Module VAD.
Import JS.

(** An encoded frame is the [Int16Array] whose buffer is sent. *)
Definition Frame := list Z.

(** The variables captured by the handler's closure. *)
Record State := mkState {
  preRollFrames : list Frame;
  inSpeech : bool;
  lastSpeechTs : Z
}.

Definition initial : State := mkState [] false 0.

Definition maxPreRoll : nat := 8.
Definition hangoverMs : Z := 300.
Definition dstRate : Q := 16000.

(** [vadThreshold = 0.01].  The handler compares
    [rms = Math.sqrt(sum / down.length)] with it; [Q] has no square
    roots, so the comparison [rms >= vadThreshold] is made between the
    squares, [sum / down.length >= vadThreshold^2], which is the same
    comparison for the non-negative quantities involved.  For an empty
    frame [0 / 0] is 0 here and NaN in the source: not voice either way.
    The comparison is exact here; in binary64 it can fall the other way for
    a frame whose rms is within rounding of the threshold.  The results on
    the gate take [voiced] as given and do not depend on where it falls. *)
Definition vadThreshold : Q := 1 # 100.

Definition sumSquares (down : list Q) : Q :=
  fold_left (fun sum v => sum + v * v) down 0.

Definition voiced (down : list Q) : bool :=
  Qle_bool (vadThreshold * vadThreshold)
           (sumSquares down / inject_Z (Z.of_nat (length down))).

(** [if (ws && ws.readyState === WebSocket.OPEN) ws.send(chunk.buffer)]:
    the frames handed to the socket, none when it is not open. *)
Definition send (wsOpen : bool) (chunk : Frame) : list Frame :=
  if wsOpen then [chunk] else [].

(** [while (preRollFrames.length) { chunk = preRollFrames.shift(); send }]:
    everything is sent oldest first and the array is left empty. *)
Fixpoint flush (wsOpen : bool) (frames : list Frame) : list Frame :=
  match frames with
  | [] => []
  | chunk :: frames' => send wsOpen chunk ++ flush wsOpen frames'
  end.

(** [preRollFrames.push(pcm16);
     if (preRollFrames.length > maxPreRoll) preRollFrames.shift();] *)
Definition pushPreRoll (frames : list Frame) (pcm16 : Frame) : list Frame :=
  let frames' := frames ++ [pcm16] in
  if (maxPreRoll <? length frames')%nat then shift frames' else frames'.

(** One message from the worklet: [data] is the captured frame, [now] is
    [Date.now()], [sampleRate] the rate of the audio context and [wsOpen]
    whether the socket is open while the handler runs.  Returns the new
    closure state and the frames sent, in order. *)
Definition onmessage (sampleRate : Q) (wsOpen : bool)
           (st : State) (data : list Q) (now : Z) : State * list Frame :=
  let down := Resampler.downsampleBuffer data sampleRate dstRate in
  let pcm16 := PCM.convertFloat32ToInt16 down in
  let preRoll := pushPreRoll (preRollFrames st) pcm16 in
  if voiced down then
    (mkState [] true now, flush wsOpen preRoll ++ send wsOpen pcm16)
  else if inSpeech st then
    if (now - lastSpeechTs st <=? hangoverMs)%Z
    then (mkState preRoll true (lastSpeechTs st), send wsOpen pcm16)
    else (mkState preRoll false (lastSpeechTs st), [])
  else (mkState preRoll false (lastSpeechTs st), []).

(** A run of messages [(data, now)], the socket open or not throughout;
    the frames sent are concatenated in order. *)
Fixpoint run (sampleRate : Q) (wsOpen : bool) (st : State)
         (msgs : list (list Q * Z)) : State * list Frame :=
  match msgs with
  | [] => (st, [])
  | (data, now) :: msgs' =>
      let '(st1, out1) := onmessage sampleRate wsOpen st data now in
      let '(st2, out2) := run sampleRate wsOpen st1 msgs' in
      (st2, out1 ++ out2)
  end.

(** The frame the handler encodes for a captured frame. *)
Definition encoded (sampleRate : Q) (data : list Q) : Frame :=
  PCM.convertFloat32ToInt16 (Resampler.downsampleBuffer data sampleRate dstRate).

Definition isVoice (sampleRate : Q) (data : list Q) : bool :=
  voiced (Resampler.downsampleBuffer data sampleRate dstRate).

End VAD.

(** ** Streaming transport: the socket life cycle of [DeepgramProvider] *)

Module Transport.

Local Open Scope string_scope.

(** The parsed message, [JSON.parse(data)] read as a [TranscriptEvent];
    a field that is absent is [None].  A [data] that does not parse is
    logged by the [catch] and has no other effect. *)
Inductive MessageType :=
| Connected
| Transcript
| Error
| Unknown (name : string).

Record TranscriptEvent := mkEvent {
  type : MessageType;
  text : option string;
  isFinal : option bool;
  message : option string
}.

(** What the provider does to the outside: calls of the two callbacks,
    of the WebSocket constructor and of [ws.close()], timers, and the
    error line written when reconnecting is given up. *)
Inductive Effect :=
| CallOnTranscript (text : string) (isFinal : bool)
| CallOnError (msg : string)
| NewWebSocket
| WsClose
| SetTimeout (delay : Z)
| ConsoleError (msg : string).

(** The fields of the provider the transport reads and writes.  [ws] is
    whether [this.ws] is non-null; [onTranscript] and [onError] whether the
    callback is registered (non-null). *)
Record Provider := mkProvider {
  ws : bool;
  isListening : bool;
  onTranscript : bool;
  onError : bool;
  reconnectAttempts : Z
}.

Definition maxReconnectAttempts : Z := 5.

(** The provider as constructed. *)
Definition newProvider : Provider := mkProvider false false false false 0.

(** Truthiness of an optional string and of an optional boolean. *)
Definition truthy_string (s : option string) : bool :=
  match s with
  | Some EmptyString => false
  | Some _ => true
  | None => false
  end.

Definition truthy_bool (b : option bool) : bool :=
  match b with Some true => true | _ => false end.

(** [this.onError?.(msg)] *)
Definition callOnError (p : Provider) (msg : string) : list Effect :=
  if onError p then [CallOnError msg] else [].

Definition handleMessage (p : Provider) (m : TranscriptEvent) : list Effect :=
  match type m with
  | Connected => []
  | Transcript =>
      match text m with
      | Some t =>
          if truthy_string (text m) && onTranscript p
          then [CallOnTranscript t (truthy_bool (isFinal m))]
          else []
      | None => []
      end
  | Error =>
      callOnError p
        (match message m with
         | Some msg => if truthy_string (message m) then msg
                       else "Service error occurred"
         | None => "Service error occurred"
         end)
  | Unknown _ => []
  end.

Definition backoff (attempt : Z) : Z := Z.min (1000 * 2 ^ attempt) 10000.

Definition attemptReconnect (p : Provider) : Provider * list Effect :=
  if (reconnectAttempts p <? maxReconnectAttempts)%Z then
    let attempts := (reconnectAttempts p + 1)%Z in
    (mkProvider (ws p) (isListening p) (onTranscript p) (onError p) attempts,
     [SetTimeout (backoff attempts)])
  else
    (p, ConsoleError "[Deepgram] Max reconnection attempts reached"
          :: callOnError p
               "Lost connection to Deepgram service and could not reconnect").

(** [initialize]: a new socket is created and stored in [this.ws]; its four
    handlers are the cases of [handle] below. *)
Definition initialize (p : Provider) : Provider * list Effect :=
  (mkProvider true (isListening p) (onTranscript p) (onError p)
              (reconnectAttempts p),
   [NewWebSocket]).

(** [startListening] as far as the transport is concerned: the two
    callbacks are stored. *)
Definition startListening (withOnError : bool) (p : Provider) : Provider :=
  if isListening p then p
  else mkProvider (ws p) true true withOnError (reconnectAttempts p).

(** [disconnect]: [if (this.ws) { this.ws.close(); this.ws = null; }
    this.isListening = false;].  The handlers of the closed socket are left
    in place. *)
Definition disconnect (p : Provider) : Provider * list Effect :=
  (mkProvider false false (onTranscript p) (onError p) (reconnectAttempts p),
   if ws p then [WsClose] else []).

(** The events the browser delivers to the provider: the four socket events
    and the expiry of a timer set by [attemptReconnect]. *)
Inductive Event :=
| Open
| Message (m : TranscriptEvent)
| SocketError
| Close
| Timeout.

Definition handle (p : Provider) (ev : Event) : Provider * list Effect :=
  match ev with
  | Open =>
      (mkProvider (ws p) (isListening p) (onTranscript p) (onError p) 0, [])
  | Message m => (p, handleMessage p m)
  | SocketError =>
      (p, callOnError p
            "Failed to connect to Deepgram service. Please check your connection.")
  | Close => attemptReconnect p
  | Timeout => initialize p
  end.

(** The browser's side of the contract.  A socket that is closed with
    [close()] fires [close]; a timer fires; a new socket either opens, or
    fails to connect and fires [error] and then [close], as [connects]
    says. *)
Definition reaction (connects : bool) (e : Effect) : list Event :=
  match e with
  | WsClose => [Close]
  | SetTimeout _ => [Timeout]
  | NewWebSocket => if connects then [Open] else [SocketError; Close]
  | _ => []
  end.

(** The event loop: the pending events are handled in order, and the
    events each handler causes are queued behind them.  Returns the
    provider, the events still pending and every effect, in order. *)
Fixpoint pump (fuel : nat) (connects : bool) (p : Provider)
         (pending : list Event) : Provider * list Event * list Effect :=
  match fuel, pending with
  | O, _ => (p, pending, [])
  | _, [] => (p, [], [])
  | S fuel', ev :: pending' =>
      let '(p1, effs) := handle p ev in
      let '(p2, rest, effs') :=
        pump fuel' connects p1
             (pending' ++ flat_map (reaction connects) effs)%list in
      (p2, rest, (effs ++ effs')%list)
  end.

(** A call from the application followed by the event loop. *)
Definition call (fuel : nat) (connects : bool)
           (r : Provider * list Effect) : Provider * list Event * list Effect :=
  let '(p, effs) := r in
  let '(p', rest, effs') :=
    pump fuel connects p (flat_map (reaction connects) effs) in
  (p', rest, (effs ++ effs')%list).

(** The connected provider: [initialize] was called and the socket has
    opened. *)
Definition connected (listening hasSink hasOnError : bool) : Provider :=
  mkProvider true listening hasSink hasOnError 0.

Definition timeouts (effs : list Effect) : list Z :=
  flat_map (fun e => match e with SetTimeout d => [d] | _ => [] end) effs.

Definition sockets (effs : list Effect) : nat :=
  length (filter (fun e => match e with NewWebSocket => true | _ => false end) effs).

End Transport.

(** ** The AssemblyAI provider's [handleMessage] *)

Module AssemblyAI.

Local Open Scope string_scope.

Inductive AaiMessageType :=
| SessionBegins
| Transcript
| FinalTranscript
| SessionTerminated
| Error
| Unknown (name : string).

Record AssemblyAITranscript := mkMessage {
  message_type : AaiMessageType;
  transcript : option string;
  message : option string
}.

Definition handleMessage (p : Transport.Provider) (m : AssemblyAITranscript)
  : list Transport.Effect :=
  match message_type m with
  | SessionBegins => []
  | Transcript =>
      match transcript m with
      | Some t =>
          if Transport.truthy_string (transcript m) && Transport.onTranscript p
          then [Transport.CallOnTranscript t false] else []
      | None => []
      end
  | FinalTranscript =>
      match transcript m with
      | Some t =>
          if Transport.truthy_string (transcript m) && Transport.onTranscript p
          then [Transport.CallOnTranscript t true] else []
      | None => []
      end
  | SessionTerminated => []
  | Error =>
      Transport.callOnError p
        (match message m with
         | Some msg => if Transport.truthy_string (message m) then msg
                       else "AssemblyAI error"
         | None => "AssemblyAI error"
         end)
  | Unknown _ => []
  end.

End AssemblyAI.

(** ** Speaker tracker: [VoiceAnalyzer] *)

Module VoiceAnalyzer.
Import JS.

(** [pitchStdDevSq] holds the square of the source's [pitchStdDev]: the
    source stores [Math.sqrt(variance)], [Q] has no square roots, and the
    analyzer never reads the field back. *)
Record VoiceProfile := mkProfile {
  avgPitch : Q;
  pitchStdDevSq : Q;
  avgEnergy : Q;
  spectralCentroid : Q;
  timestamp : Z
}.

Record Features := mkFeatures {
  pitch : Q;
  energy : Q;
  centroid : Q
}.

Record SpeakerChangeEvent := mkChange {
  ev_timestamp : Z;
  ev_confidence : Q;
  ev_newSpeaker : Z;
  ev_features : Features
}.

(** The result object of [analyzeFrame]. *)
Record Result := mkResult {
  speaker : Z;
  changeEvent : option SpeakerChangeEvent
}.

(** The analyzer's fields.  [speakerProfiles] is a map with the two keys 0
    and 1, set by the constructor and never added to or deleted from; it is
    kept as the two profiles [profile0] and [profile1]. *)
Record Analyzer := mkAnalyzer {
  sampleRate : Q;
  pitchHistory : list Q;
  energyHistory : list Q;
  spectralHistory : list Q;
  profile0 : VoiceProfile;
  profile1 : VoiceProfile;
  currentSpeaker : Z
}.

Definition speakerChangeThreshold : Q := 7 # 10.
Definition analysisWindowSize : nat := 50.

Definition zeroProfile (now : Z) : VoiceProfile := mkProfile 0 0 0 0 now.

(** [new VoiceAnalyzer(sampleRate)], [now] being [Date.now()]. *)
Definition create (rate : Q) (now : Z) : Analyzer :=
  mkAnalyzer rate [] [] [] (zeroProfile now) (zeroProfile now) 0.

Definition calculateDistance (f : Features) (profile : VoiceProfile) : Q :=
  let pitchDiff :=
    if Qlt_bool 0 (avgPitch profile)
    then Math_abs (pitch f - avgPitch profile) / avgPitch profile
    else 0 in
  let energyDiff :=
    Math_abs (energy f - avgEnergy profile) / (avgEnergy profile + (1 # 100)) in
  let spectralDiff :=
    if Qlt_bool 0 (spectralCentroid profile)
    then Math_abs (centroid f - spectralCentroid profile) / spectralCentroid profile
    else 0 in
  pitchDiff * (1 # 2) + energyDiff * (1 # 4) + spectralDiff * (1 # 4).

(** The second half of [detectSpeakerChange], from the two distances on:
    [newSpeaker = distance0 < distance1 ? 0 : 1] and
    [confidence = maxDistance > 0 ? minDistance / maxDistance : 0.5]. *)
Definition decide (distance0 distance1 : Q) : Z * Q :=
  let newSpeaker := if Qlt_bool distance0 distance1 then 0%Z else 1%Z in
  let maxDistance := Math_max distance0 distance1 in
  let minDistance := Math_min distance0 distance1 in
  let confidence :=
    if Qlt_bool 0 maxDistance then minDistance / maxDistance else 1 # 2 in
  (newSpeaker, confidence).

Definition detectSpeakerChange (a : Analyzer) (f : Features) : Z * Q :=
  decide (calculateDistance f (profile0 a)) (calculateDistance f (profile1 a)).

(** The variance of the last 20 pitches, whose root the source stores. *)
Definition variance (recentPitches : list Q) : Q :=
  let n := inject_Z (Z.of_nat (length recentPitches)) in
  let meanPitch := sum recentPitches / n in
  fold_left (fun acc p => acc + (p - meanPitch) * (p - meanPitch))
            recentPitches 0 / n.

Definition alpha : Q := 1 # 10.

Definition updated (a : Analyzer) (profile : VoiceProfile) (f : Features)
           (now : Z) : VoiceProfile :=
  let recentPitches := slice_last 20 (pitchHistory a) in
  mkProfile
    (avgPitch profile * (1 - alpha) + pitch f * alpha)
    (if (0 <? length recentPitches)%nat then variance recentPitches
     else pitchStdDevSq profile)
    (avgEnergy profile * (1 - alpha) + energy f * alpha)
    (spectralCentroid profile * (1 - alpha) + centroid f * alpha)
    now.

(** [updateSpeakerProfile(speakerId, ...)]: the profile stored under
    [speakerId] is updated in place. *)
Definition updateSpeakerProfile (a : Analyzer) (speakerId : Z) (f : Features)
           (now : Z) : Analyzer :=
  if (speakerId =? 0)%Z then
    mkAnalyzer (sampleRate a) (pitchHistory a) (energyHistory a)
               (spectralHistory a) (updated a (profile0 a) f now)
               (profile1 a) (currentSpeaker a)
  else
    mkAnalyzer (sampleRate a) (pitchHistory a) (energyHistory a)
               (spectralHistory a) (profile0 a)
               (updated a (profile1 a) f now) (currentSpeaker a).

(** The three [push]es and the conditional three [shift]s. *)
Definition pushHistory (a : Analyzer) (f : Features) : Analyzer :=
  let pitches := pitchHistory a ++ [pitch f] in
  let energies := energyHistory a ++ [energy f] in
  let spectrals := spectralHistory a ++ [centroid f] in
  if (analysisWindowSize <? length pitches)%nat then
    mkAnalyzer (sampleRate a) (shift pitches) (shift energies)
               (shift spectrals) (profile0 a) (profile1 a) (currentSpeaker a)
  else
    mkAnalyzer (sampleRate a) pitches energies spectrals
               (profile0 a) (profile1 a) (currentSpeaker a).

Definition setCurrentSpeaker (a : Analyzer) (s : Z) : Analyzer :=
  mkAnalyzer (sampleRate a) (pitchHistory a) (energyHistory a)
             (spectralHistory a) (profile0 a) (profile1 a) s.

(** The body of [if (this.pitchHistory.length > 10) { ... }] followed by
    the [return]: the classification of the frame. *)
Definition classify (a1 : Analyzer) (f : Features) (now : Z)
  : Analyzer * Result :=
  let '(newSpeaker, confidence) := detectSpeakerChange a1 f in
  if negb (newSpeaker =? currentSpeaker a1)%Z
     && Qlt_bool speakerChangeThreshold confidence
  then
    let a2 := updateSpeakerProfile (setCurrentSpeaker a1 newSpeaker)
                                   newSpeaker f now in
    (a2, mkResult (currentSpeaker a2)
                  (Some (mkChange now confidence newSpeaker f)))
  else (a1, mkResult (currentSpeaker a1) None).

(** [analyzeFrame] from the point where the three features of the frame
    are known; [now] is [Date.now()], read once for the profile and for the
    event of one call. *)
Definition analyzeFeatures (a : Analyzer) (f : Features) (now : Z)
  : Analyzer * Result :=
  let a1 := pushHistory a f in
  if (10 <? length (pitchHistory a1))%nat then classify a1 f now
  else (a1, mkResult (currentSpeaker a1) None).

(** [reset()] *)
Definition reset (a : Analyzer) (now : Z) : Analyzer :=
  mkAnalyzer (sampleRate a) [] [] [] (zeroProfile now) (zeroProfile now) 0.

Section Extraction.

(** The three feature extractors ([extractPitch], [extractEnergy],
    [extractSpectralCentroid]) are pure functions of the frame (and of
    the fixed sample rate) built on [Math.sqrt] and [Math.cos]; the
    tracker only uses the numbers they return. *)
Variables extractPitch extractEnergy extractSpectralCentroid : list Q -> Q.

Definition extract (audioData : list Q) : Features :=
  mkFeatures (extractPitch audioData) (extractEnergy audioData)
             (extractSpectralCentroid audioData).

Definition analyzeFrame (a : Analyzer) (audioData : list Q) (now : Z)
  : Analyzer * Result :=
  analyzeFeatures a (extract audioData) now.

(** What a client does with an analyzer. *)
Inductive Call :=
| AnalyzeFrame (audioData : list Q) (now : Z)
| Reset (now : Z).

Definition step (a : Analyzer) (c : Call) : Analyzer * option Result :=
  match c with
  | AnalyzeFrame audioData now =>
      let '(a', r) := analyzeFrame a audioData now in (a', Some r)
  | Reset now => (reset a now, None)
  end.

(** The analyzer after a sequence of calls. *)
Definition after (a : Analyzer) (calls : list Call) : Analyzer :=
  fold_left (fun a c => fst (step a c)) calls a.

End Extraction.

(** The three histories have one length, at most the window size, and the
    current speaker is 0 or 1. *)
Definition aligned (a : Analyzer) : Prop :=
  length (pitchHistory a) = length (energyHistory a)
  /\ length (energyHistory a) = length (spectralHistory a)
  /\ (length (pitchHistory a) <= analysisWindowSize)%nat
  /\ (currentSpeaker a = 0 \/ currentSpeaker a = 1)%Z.

(** Frames given by their features, for running the tracker on
    concrete numbers. *)
Definition feed (a : Analyzer) (frames : list (Features * Z)) : Analyzer :=
  fold_left (fun a fn => fst (analyzeFeatures a (fst fn) (snd fn))) frames a.

End VoiceAnalyzer.

(** ** The ScriptProcessor fallback of [startListening] *)

Module Fallback.
Import JS.

(** [processor.onaudioprocess]: the frame is resampled and encoded, and sent
    when the socket is open and the encoded frame has bytes
    ([pcm16.byteLength > 0]).  Returns the frames sent. *)
Definition onaudioprocess (sampleRate : Q) (wsOpen : bool)
           (inputBuffer : list Q) : list VAD.Frame :=
  let downsampled := Resampler.downsampleBuffer inputBuffer sampleRate 16000 in
  let pcm16 := PCM.convertFloat32ToInt16 downsampled in
  if wsOpen && (0 <? 2 * length pcm16)%nat then [pcm16] else [].

(** The frames sent for a sequence of callbacks. *)
Definition process (sampleRate : Q) (wsOpen : bool)
           (inputs : list (list Q)) : list VAD.Frame :=
  flat_map (onaudioprocess sampleRate wsOpen) inputs.

End Fallback.

(** ** Helpers for stating what the gate sends *)

Module Seq.

(** The longest prefix of [l] whose elements all satisfy [p]. *)
Fixpoint takeWhile {A} (p : A -> bool) (l : list A) : list A :=
  match l with
  | [] => []
  | x :: l' => if p x then x :: takeWhile p l' else []
  end.

End Seq.

(** ** Pitch extraction: [VoiceAnalyzer.extractPitch] *)

Module Pitch.
Import JS.

(** The inner loop and the division that follows it:
    [for (let i = 0; i < audioData.length - lag; i++)
       correlation += audioData[i] * audioData[i + lag];
     correlation /= audioData.length;] *)
Definition correlation (audioData : list Q) (lag : nat) : Q :=
  fold_left (fun c i => c + nth i audioData 0 * nth (i + lag) audioData 0)
            (seq 0 (length audioData - lag)) 0
  / inject_Z (Z.of_nat (length audioData)).

(** One iteration of the loop over the lags, on the pair
    [(bestLag, bestCorrelation)]. *)
Definition pitchStep (audioData : list Q) (best : nat * Q) (lag : nat)
  : nat * Q :=
  let c := correlation audioData lag in
  if Qlt_bool (snd best) c then (lag, c) else best.

Definition minLag (sampleRate : Q) : nat :=
  Z.to_nat (Math_floor (sampleRate / 400)).

Definition maxLag (sampleRate : Q) : nat :=
  Z.to_nat (Math_floor (sampleRate / 80)).

(** The pair [(bestLag, bestCorrelation)] after the loop
    [for (let lag = minLag; lag < maxLag; lag++)]. *)
Definition bestOf (sampleRate : Q) (audioData : list Q) : nat * Q :=
  fold_left (pitchStep audioData)
            (seq (minLag sampleRate) (maxLag sampleRate - minLag sampleRate))
            (O, 0).

(** [extractPitch], for the analyzer's sample rate (a positive number). *)
Definition extractPitch (sampleRate : Q) (audioData : list Q) : Q :=
  let '(bestLag, bestCorrelation) := bestOf sampleRate audioData in
  if Qlt_bool (1 # 10) bestCorrelation
  then sampleRate / inject_Z (Z.of_nat bestLag)
  else 0.

End Pitch.

(** ** The AssemblyAI provider's socket life cycle *)

Module AssemblyAITransport.
Import Transport.

Local Open Scope string_scope.

(** [attemptReconnect] of the AssemblyAI provider. *)
Definition attemptReconnect (p : Provider) : Provider * list Effect :=
  if (reconnectAttempts p <? maxReconnectAttempts)%Z then
    let attempts := (reconnectAttempts p + 1)%Z in
    (mkProvider (ws p) (isListening p) (onTranscript p) (onError p) attempts,
     [SetTimeout (backoff attempts)])
  else
    (p, ConsoleError "[AssemblyAI] Max reconnection attempts reached"
          :: callOnError p "Lost connection to AssemblyAI and could not reconnect").

(** [initialize]: the key is first validated with the backend
    ([fetch] of [/api/assemblyai/token]); [tokenOk] says whether that
    succeeds.  When it does not, [initialize] throws before any socket is
    made; on the reconnect path the rejection is caught and logged, which
    is all that happens. *)
Definition initialize (tokenOk : bool) (p : Provider) : Provider * list Effect :=
  if tokenOk then
    (mkProvider true (isListening p) (onTranscript p) (onError p)
                (reconnectAttempts p),
     [NewWebSocket])
  else (p, []).

(** The events delivered to the AssemblyAI provider. *)
Inductive AaiEvent :=
| AaiOpen
| AaiMessage (m : AssemblyAI.AssemblyAITranscript)
| AaiSocketError
| AaiClose
| AaiTimeout.

(** The handlers installed by [initialize] and the timer callback of
    [attemptReconnect].  [onerror] only rejects the promise of
    [initialize]. *)
Definition handle (tokenOk : bool) (p : Provider) (ev : AaiEvent)
  : Provider * list Effect :=
  match ev with
  | AaiOpen =>
      (mkProvider (ws p) (isListening p) (onTranscript p) (onError p) 0, [])
  | AaiMessage m => (p, AssemblyAI.handleMessage p m)
  | AaiSocketError => (p, [])
  | AaiClose => attemptReconnect p
  | AaiTimeout => initialize tokenOk p
  end.

(** The browser's side, as [Transport.reaction]. *)
Definition reaction (connects : bool) (e : Effect) : list AaiEvent :=
  match e with
  | WsClose => [AaiClose]
  | SetTimeout _ => [AaiTimeout]
  | NewWebSocket => if connects then [AaiOpen] else [AaiSocketError; AaiClose]
  | _ => []
  end.

(** The event loop, as [Transport.pump]. *)
Fixpoint pump (fuel : nat) (tokenOk connects : bool) (p : Provider)
         (pending : list AaiEvent) : Provider * list AaiEvent * list Effect :=
  match fuel, pending with
  | O, _ => (p, pending, [])
  | _, [] => (p, [], [])
  | S fuel', ev :: pending' =>
      let '(p1, effs) := handle tokenOk p ev in
      let '(p2, rest, effs') :=
        pump fuel' tokenOk connects p1
             (pending' ++ flat_map (reaction connects) effs)%list in
      (p2, rest, (effs ++ effs')%list)
  end.

End AssemblyAITransport.

(** ** The backend relay: the handler of Deepgram's messages in the server *)

Module Relay.

Local Open Scope string_scope.

Inductive DeepgramType :=
| Results
| Metadata
| OtherType (name : string).

(** The fields of a parsed Deepgram message the handler reads:
    [message.type], [message.channel?.alternatives?.[0]?.transcript]
    ([None] when any link of the chain is missing) and [message.is_final]
    ([None] when it is absent or not a boolean). *)
Record DeepgramMessage := mkDeepgram {
  dg_type : DeepgramType;
  dg_transcript : option string;
  dg_is_final : option bool
}.

(** [message.channel?.alternatives?.[0]?.transcript || ""] *)
Definition transcriptOf (m : DeepgramMessage) : string :=
  match dg_transcript m with
  | Some t => if Transport.truthy_string (dg_transcript m) then t else ""
  | None => ""
  end.

(** [message.is_final === true] *)
Definition isFinalOf (m : DeepgramMessage) : bool :=
  match dg_is_final m with Some true => true | _ => false end.

(** The event sent to the client for one Deepgram message, if any; the
    client reads back what [JSON.stringify] wrote. *)
Definition relay (m : DeepgramMessage) : option Transport.TranscriptEvent :=
  match dg_type m with
  | Results =>
      if Transport.truthy_string (Some (transcriptOf m))
      then Some (Transport.mkEvent Transport.Transcript
                                   (Some (transcriptOf m))
                                   (Some (isFinalOf m)) None)
      else None
  | _ => None
  end.

End Relay.

(** ** The [useDeepgram] hook: what is done with a transcript *)

Module Hook.

Local Open Scope string_scope.

(** The hook's state: the ref [transcriptRef] and the React states
    [transcript], [interimTranscript] and [error]. *)
Record State := mkState {
  transcriptRef : string;
  transcript : string;
  interimTranscript : string;
  error : option string
}.

(** The state set by [startListening] and by [clearTranscript]. *)
Definition cleared : State := mkState "" "" "" None.

Section Trim.

(** [String.prototype.trim]. *)
Variable trim : string -> string.

Definition handleTranscript (st : State) (text : string) (isFinal : bool)
  : State :=
  if isFinal then
    let ref := transcriptRef st ++ text ++ " " in
    mkState ref (trim ref) "" (error st)
  else
    mkState (transcriptRef st) (transcript st) text (error st).

Definition handleError (st : State) (errorMsg : string) : State :=
  mkState (transcriptRef st) (transcript st) (interimTranscript st)
          (Some errorMsg).

(** The provider's callbacks are [handleTranscript] and [handleError]:
    what one effect of the provider does to the hook. *)
Definition deliver (st : State) (e : Transport.Effect) : State :=
  match e with
  | Transport.CallOnTranscript text isFinal => handleTranscript st text isFinal
  | Transport.CallOnError msg => handleError st msg
  | _ => st
  end.

(** Deepgram messages through the relay, the provider's [handleMessage]
    and the hook. *)
Definition receive (p : Transport.Provider) (st : State)
           (m : Relay.DeepgramMessage) : State :=
  match Relay.relay m with
  | Some ev => fold_left deliver (Transport.handleMessage p ev) st
  | None => st
  end.

End Trim.

(** The texts of the final transcripts among [(text, isFinal)] calls, each
    followed by a space, joined. *)
Fixpoint finals (calls : list (string * bool)) : string :=
  match calls with
  | [] => ""
  | (text, true) :: calls' => text ++ " " ++ finals calls'
  | (_, false) :: calls' => finals calls'
  end.

(** The interim text left by a sequence of calls that starts with
    [start] as interim text. *)
Fixpoint interimAfter (start : string) (calls : list (string * bool)) : string :=
  match calls with
  | [] => start
  | (text, true) :: calls' => interimAfter "" calls'
  | (text, false) :: calls' => interimAfter text calls'
  end.

End Hook.

(** ** Sequences of events, and what a callback call carries *)

Module TransportRuns.
Import Transport.

(** The provider after a sequence of events, with all effects in order. *)
Fixpoint handleAll (p : Provider) (events : list Event)
  : Provider * list Effect :=
  match events with
  | [] => (p, [])
  | ev :: events' =>
      let '(p1, effs) := handle p ev in
      let '(p2, effs') := handleAll p1 events' in
      (p2, (effs ++ effs')%list)
  end.

(** A call of one of the two callbacks with a text that is not empty. *)
Definition carriesText (e : Effect) : Prop :=
  match e with
  | CallOnTranscript text _ => text <> EmptyString
  | CallOnError msg => msg <> EmptyString
  | _ => False
  end.

End TransportRuns.

(** ** Non-negative features and profiles *)

Module TrackerSpec.
Import VoiceAnalyzer.

(** Pitch, energy and centroid are frequencies and an RMS: not negative. *)
Definition nonnegFeatures (f : Features) : Prop :=
  0 <= pitch f /\ 0 <= energy f /\ 0 <= centroid f.

Definition nonnegProfile (p : VoiceProfile) : Prop :=
  0 <= avgPitch p /\ 0 <= pitchStdDevSq p /\ 0 <= avgEnergy p
  /\ 0 <= spectralCentroid p.

End TrackerSpec.

(** * Properties *)

(** ** Facts about the numeric primitives *)

Module JSFacts.
Import JS.

Lemma Qlt_bool_iff (a b : Q) : Qlt_bool a b = true <-> a < b.
Proof.
  unfold Qlt_bool. rewrite negb_true_iff.
  destruct (Qle_bool b a) eqn:E.
  - apply Qle_bool_iff in E. split; [discriminate | intro H; lra].
  - split; [intros _ | reflexivity].
    apply Qnot_le_lt. intro H. apply Qle_bool_iff in H. congruence.
Qed.

Lemma Qlt_bool_false (a b : Q) : Qlt_bool a b = false <-> b <= a.
Proof.
  unfold Qlt_bool. rewrite negb_false_iff. apply Qle_bool_iff.
Qed.

Lemma Qle_bool_false (a b : Q) : Qle_bool a b = false <-> b < a.
Proof.
  destruct (Qle_bool a b) eqn:E.
  - apply Qle_bool_iff in E. split; [discriminate | intro; lra].
  - split; [intros _ | reflexivity].
    apply Qnot_le_lt. intro H. apply Qle_bool_iff in H. congruence.
Qed.

(** [Math_max], [Math_min] and [Math_abs] are the maximum, the minimum
    and the absolute value. *)
Lemma Math_max_spec (a b : Q) :
  a <= Math_max a b /\ b <= Math_max a b /\
  (Math_max a b = a \/ Math_max a b = b).
Proof.
  unfold Math_max. destruct (Qle_bool a b) eqn:E.
  - apply Qle_bool_iff in E. repeat split; auto; lra.
  - apply Qle_bool_false in E. repeat split; auto; lra.
Qed.

Lemma Math_min_spec (a b : Q) :
  Math_min a b <= a /\ Math_min a b <= b /\
  (Math_min a b = a \/ Math_min a b = b).
Proof.
  unfold Math_min. destruct (Qle_bool a b) eqn:E.
  - apply Qle_bool_iff in E. repeat split; auto; lra.
  - apply Qle_bool_false in E. repeat split; auto; lra.
Qed.

Lemma Math_abs_nonneg (a : Q) : 0 <= Math_abs a.
Proof.
  unfold Math_abs. destruct (Qle_bool 0 a) eqn:E.
  - now apply Qle_bool_iff in E.
  - apply Qle_bool_false in E. lra.
Qed.

(** [truncate] moves towards zero by less than one. *)
Lemma truncate_nonneg (x : Q) :
  0 <= x -> (0 <= truncate x)%Z /\ inject_Z (truncate x) <= x < inject_Z (truncate x) + 1.
Proof.
  intro H. unfold truncate.
  assert (E : Qle_bool 0 x = true) by now apply Qle_bool_iff.
  rewrite E. split.
  - change 0%Z with (Qfloor 0). now apply Qfloor_resp_le.
  - split; [apply Qfloor_le |].
    pose proof (Qlt_floor x) as L. rewrite inject_Z_plus in L. exact L.
Qed.

Lemma truncate_neg (x : Q) :
  x < 0 -> (truncate x <= 0)%Z /\ x <= inject_Z (truncate x) < x + 1.
Proof.
  intro H. unfold truncate.
  assert (E : Qle_bool 0 x = false) by now apply Qle_bool_false.
  rewrite E. split.
  - change 0%Z with (Qceiling 0). apply Qceiling_resp_le. lra.
  - split; [apply Qle_ceiling |].
    pose proof (Qceiling_lt x) as L.
    unfold Z.sub in L. rewrite inject_Z_plus, inject_Z_opp in L.
    change (inject_Z 1) with 1%Q in L. lra.
Qed.

(** A number within the signed 16-bit range is stored by its truncation. *)
Lemma ToInt16_in_range (x : Q) :
  -32768 <= x <= 32767 ->
  ToInt16 x = truncate x /\ (-32768 <= truncate x <= 32767)%Z.
Proof.
  intros [Hlo Hhi].
  assert (R : (-32768 <= truncate x <= 32767)%Z).
  { destruct (Qlt_le_dec x 0) as [Hn | Hp].
    - destruct (truncate_neg x Hn) as [Hz [Ha Hb]]. split; [| lia].
      rewrite Zle_Qle. change (inject_Z (-32768)%Z) with (-32768)%Q. lra.
    - destruct (truncate_nonneg x Hp) as [Hz [Ha Hb]]. split; [lia |].
      rewrite Zle_Qle. change (inject_Z 32767%Z) with 32767%Q. lra. }
  split; [| exact R].
  unfold ToInt16.
  destruct (Z_lt_le_dec (truncate x) 0) as [Hn | Hp].
  - replace (truncate x mod 65536)%Z with (truncate x + 65536)%Z.
    + destruct (Z.leb_spec 32768 (truncate x + 65536)); lia.
    + symmetry. rewrite <- (Z.mod_add _ 1 65536) by lia.
      rewrite Z.mul_1_l. apply Z.mod_small. lia.
  - rewrite Z.mod_small by lia.
    destruct (Z.leb_spec 32768 (truncate x)); lia.
Qed.

(** The two bytes of a signed 16-bit integer read back give the integer. *)
Lemma int16_of_le_bytes (x : Z) :
  (-32768 <= x <= 32767)%Z ->
  int16_of_le (x mod 256) ((x / 256) mod 256) = x.
Proof.
  intro R. unfold int16_of_le.
  pose proof (Z.div_mod x 256 ltac:(lia)) as D.
  pose proof (Z.mod_pos_bound x 256 ltac:(lia)) as B.
  assert (Hq : (-128 <= x / 256 <= 127)%Z) by lia.
  destruct (Z_lt_le_dec (x / 256) 0) as [Hn | Hp].
  - replace ((x / 256) mod 256)%Z with (x / 256 + 256)%Z.
    + destruct (Z.leb_spec 32768 (x mod 256 + 256 * (x / 256 + 256))); lia.
    + symmetry. rewrite <- (Z.mod_add _ 1 256) by lia.
      rewrite Z.mul_1_l. apply Z.mod_small. lia.
  - rewrite (Z.mod_small (x / 256)) by lia.
    destruct (Z.leb_spec 32768 (x mod 256 + 256 * (x / 256))); lia.
Qed.

End JSFacts.

(** ** The PCM encoder *)

Module PCMFacts.
Import JS JSFacts PCM.

Lemma clamp_range (x : Q) : -1 <= clamp x <= 1.
Proof.
  unfold clamp.
  destruct (Math_min_spec 1 x) as [H1 [H2 H3]].
  destruct (Math_max_spec (-1) (Math_min 1 x)) as [H4 [H5 [H6 | H6]]];
    rewrite H6 in *; lra.
Qed.

Lemma clamp_inside (x : Q) : -1 <= x <= 1 -> clamp x == x.
Proof.
  intro H. unfold clamp.
  destruct (Math_min_spec 1 x) as [H1 [H2 [H3 | H3]]];
    destruct (Math_max_spec (-1) (Math_min 1 x)) as [H4 [H5 [H6 | H6]]];
    rewrite H6 in *; rewrite ?H3 in *; lra.
Qed.

(** Clamping keeps the sign. *)
Lemma clamp_sign (x : Q) : Qlt_bool (clamp x) 0 = Qlt_bool x 0.
Proof.
  destruct (Qlt_bool x 0) eqn:E.
  - apply Qlt_bool_iff in E. apply Qlt_bool_iff. unfold clamp.
    destruct (Math_min_spec 1 x) as [H1 [H2 H3]].
    destruct (Math_max_spec (-1) (Math_min 1 x)) as [H4 [H5 [H6 | H6]]];
      rewrite H6 in *; lra.
  - apply Qlt_bool_false in E. apply Qlt_bool_false. unfold clamp.
    destruct (Math_min_spec 1 x) as [H1 [H2 [H3 | H3]]];
      destruct (Math_max_spec (-1) (Math_min 1 x)) as [H4 [H5 H6]];
      rewrite H3 in *; lra.
Qed.

Lemma scaled_range (x : Q) : -32768 <= scaled x <= 32767.
Proof.
  unfold scaled. pose proof (clamp_range x) as R.
  destruct (Qlt_bool (clamp x) 0) eqn:E.
  - apply Qlt_bool_iff in E. lra.
  - apply Qlt_bool_false in E. lra.
Qed.

Lemma convertSample_truncate (x : Q) :
  convertSample x = truncate (scaled x) /\
  (-32768 <= convertSample x <= 32767)%Z.
Proof.
  unfold convertSample.
  destruct (ToInt16_in_range (scaled x) (scaled_range x)) as [H R].
  rewrite H. split; [reflexivity | exact R].
Qed.

Lemma read_le_buffer_of (a : list Z) :
  Forall (fun v => (-32768 <= v <= 32767)%Z) a -> read_le (buffer_of a) = a.
Proof.
  induction 1 as [| v a Hv _ IH]; [reflexivity |].
  cbn [buffer_of flat_map int16_bytes app read_le].
  change (flat_map int16_bytes a) with (buffer_of a).
  rewrite IH. f_equal. now apply int16_of_le_bytes.
Qed.

Lemma length_buffer_of (a : list Z) :
  length (buffer_of a) = (2 * length a)%nat.
Proof.
  induction a as [| v a IH]; [reflexivity |].
  cbn [buffer_of flat_map int16_bytes app length].
  change (flat_map int16_bytes a) with (buffer_of a). rewrite IH. lia.
Qed.

Lemma convert_in_range (buffer : list Q) :
  Forall (fun v => (-32768 <= v <= 32767)%Z) (convertFloat32ToInt16 buffer).
Proof.
  unfold convertFloat32ToInt16. apply Forall_map, Forall_forall.
  intros x _. apply convertSample_truncate.
Qed.

(** C4, as stated, fails: the store into the [Int16Array] truncates where
    the claim rounds.  The sample 0.25 is scaled to 8191.75, which rounds
    to 8192 and is stored as 8191. *)
Lemma convertSample_not_rounded :
  convertSample (1 # 4) = 8191%Z /\
  spec_convertSample (1 # 4) = 8192%Z /\
  convertFloat32ToInt16 [1 # 4] <> map spec_convertSample [1 # 4].
Proof.
  repeat split; try reflexivity. vm_compute. discriminate.
Qed.

(** C4, amended: every sample is clamped to [-1, 1], scaled by 32767 when
    it is not negative and by 32768 when it is, and the product is
    truncated towards zero; the result is a signed 16-bit integer, and a
    frame of [L] samples is encoded as [2 * L] bytes that read back,
    low byte first, as those integers.  The encoder is a total function
    of the frame. *)
Theorem convertFloat32ToInt16_truncates (buffer : list Q) :
  convertFloat32ToInt16 buffer =
    map (fun s => if Qlt_bool s 0 then truncate (clamp s * 32768)
                  else truncate (clamp s * 32767)) buffer
  /\ Forall (fun v => (-32768 <= v <= 32767)%Z) (convertFloat32ToInt16 buffer)
  /\ length (encode buffer) = (2 * length buffer)%nat
  /\ read_le (encode buffer) = convertFloat32ToInt16 buffer.
Proof.
  split; [| split; [apply convert_in_range | split]].
  - unfold convertFloat32ToInt16. apply map_ext. intro s.
    destruct (convertSample_truncate s) as [H _]. rewrite H.
    unfold scaled. rewrite clamp_sign.
    now destruct (Qlt_bool s 0).
  - unfold encode. rewrite length_buffer_of.
    unfold convertFloat32ToInt16. now rewrite length_map.
  - unfold encode. apply read_le_buffer_of, convert_in_range.
Qed.

Lemma div_32768 (x : Q) : x / 32768 == x * (1 # 32768).
Proof. reflexivity. Qed.

Lemma div_32767 (x : Q) : x / 32767 == x * (1 # 32767).
Proof. reflexivity. Qed.

(** C5, as stated, fails: the sample 32769 / 2^24 (a 32-bit float) is
    scaled to 64 - 2^-24 and stored as 63; decoded, it is off by more
    than 1/32768. *)
Lemma roundtrip_exceeds_bound :
  -1 <= 32769 # 16777216 <= 1 /\
  convertSample (32769 # 16777216) = 63%Z /\
  ~ Qabs (decode (convertSample (32769 # 16777216)) - (32769 # 16777216))
    <= 1 # 32768.
Proof.
  split; [split; discriminate |]. split; [reflexivity |].
  vm_compute. intro H. apply H. reflexivity.
Qed.

(** C5, amended: for a sample in [-1, 1], decoding the encoded sample
    gives a value less than 1/32767, one step of the code, away from it. *)
Theorem roundtrip_within_step (s : Q) :
  -1 <= s <= 1 -> Qabs (decode (convertSample s) - s) < 1 # 32767.
Proof.
  intro R.
  destruct (convertSample_truncate s) as [H _]. rewrite H. clear H.
  pose proof (clamp_inside s R) as C. pose proof (clamp_range s) as CR.
  unfold scaled. apply Qabs_Qlt_condition.
  destruct (Qlt_bool (clamp s) 0) eqn:E.
  - apply Qlt_bool_iff in E.
    assert (N : clamp s * 32768 < 0) by lra.
    destruct (truncate_neg _ N) as [Hz [Ha Hb]].
    unfold decode.
    destruct (Z.ltb_spec (truncate (clamp s * 32768)) 0) as [Hlt | Hge].
    + rewrite div_32768. lra.
    + assert (Z0 : truncate (clamp s * 32768) = 0%Z) by lia.
      rewrite Z0 in *. change (inject_Z 0) with 0 in *.
      rewrite div_32767. lra.
  - apply Qlt_bool_false in E.
    assert (N : 0 <= clamp s * 32767) by lra.
    destruct (truncate_nonneg _ N) as [Hz [Ha Hb]].
    unfold decode.
    destruct (Z.ltb_spec (truncate (clamp s * 32767)) 0) as [Hlt | Hge];
      [lia | rewrite div_32767; lra].
Qed.

Lemma roundtrip_within_step_witness :
  Qabs (decode (convertSample (1 # 4)) - (1 # 4)) < 1 # 32767.
Proof.
  apply (roundtrip_within_step (1 # 4)). split; discriminate.
Defined.

End PCMFacts.

(** ** The resampler over the rationals *)

Module ResamplerFacts.
Import JS JSFacts Resampler.

(** The inner loop adds the first [nextOffsetBuffer - i] samples of
    [rest], or all of [rest] when it is shorter, and counts them. *)
Lemma block_loop_spec (rest : list Q) :
  forall i next accum count,
    fst (block_loop rest i next accum count)
      == accum + fold_right Qplus 0 (firstn (Z.to_nat (next - i)) rest)
    /\ snd (block_loop rest i next accum count)
       = (count + Z.of_nat (length (firstn (Z.to_nat (next - i)) rest)))%Z.
Proof.
  induction rest as [| x rest IH]; intros i next accum count.
  - rewrite firstn_nil. cbn. split; [lra | lia].
  - cbn [block_loop]. destruct (Z.ltb_spec i next) as [Hlt | Hge].
    + replace (Z.to_nat (next - i)) with (S (Z.to_nat (next - (i + 1)))) by lia.
      cbn [firstn fold_right length].
      destruct (IH (i + 1)%Z next (accum + x) (count + 1)%Z) as [H1 H2].
      rewrite H1, H2. split; [lra | lia].
    + replace (Z.to_nat (next - i)) with O by lia.
      cbn. split; [lra | lia].
Qed.

(** The value written for one block is its mean, 0 for an empty block. *)
Lemma block_value (rest : list Q) (i next : Z) :
  (let '(accum, count) := block_loop rest i next 0 0%Z in
   if (count =? 0)%Z then 0 else accum / inject_Z count)
  == mean (firstn (Z.to_nat (next - i)) rest).
Proof.
  destruct (block_loop_spec rest i next 0 0%Z) as [H1 H2].
  destruct (block_loop rest i next 0 0%Z) as [accum count].
  cbn [fst snd] in H1, H2.
  destruct (firstn (Z.to_nat (next - i)) rest) as [| y b] eqn:E.
  - cbn in H2. subst count. reflexivity.
  - destruct (Z.eqb_spec count 0) as [H0 | H0].
    + cbn [length] in H2. lia.
    + unfold mean. rewrite H1, H2, Z.add_0_l, Qplus_0_l. reflexivity.
Qed.

Lemma length_fill (n : nat) (buffer : list Q) (r : Q) :
  forall offsetResult offsetBuffer,
    length (fill n buffer r offsetResult offsetBuffer) = n.
Proof.
  induction n as [| n IH]; intros; [reflexivity |].
  cbn [fill]. destruct (block_loop _ _ _ _ _). cbn [length]. now rewrite IH.
Qed.

Lemma Math_round_0 (r : Q) : Math_round (inject_Z 0 * r) = 0%Z.
Proof.
  unfold Math_round.
  assert (E : inject_Z 0 * r + (1 # 2) == 1 # 2) by (change (inject_Z 0) with 0; lra).
  rewrite E. reflexivity.
Qed.

Lemma Math_round_mono (x y : Q) : x <= y -> (Math_round x <= Math_round y)%Z.
Proof. intro H. unfold Math_round. apply Qfloor_resp_le. lra. Qed.

End ResamplerFacts.

(** ** The resampler in binary64 *)

Module Resampler64Facts.
Import Binary64 Resampler64.
Local Open Scope Z_scope.

(** Rounding keeps the sign it is given. *)
Lemma binary_round_aux_signed (p em : Z) (s : bool) (mx e : Z) (l : location) :
  signed s (binary_round_aux p em s mx e l).
Proof.
  unfold binary_round_aux.
  destruct (shr_fexp p em mx e l) as [mrs' e'].
  destruct (shr_fexp p em _ e' loc_Exact) as [mrs'' e''].
  destruct (shr_m mrs''); cbn [signed].
  - reflexivity.
  - destruct (Z.leb _ _); reflexivity.
  - exact I.
Qed.

Lemma ofZ_signed (z : Z) : 0 <= z -> signed false (ofZ z).
Proof.
  intro H. unfold ofZ, binary_normalize. destruct z as [| p | p].
  - reflexivity.
  - unfold binary_round. destruct (shl_align _ _ _) as [mz ez].
    apply binary_round_aux_signed.
  - lia.
Qed.

Lemma mul_signed (a b : bool) (x y : number) :
  signed a x -> signed b y -> signed (xorb a b) (mul x y).
Proof.
  unfold mul, SFmul.
  destruct x, y; cbn [signed]; intros; subst;
    try exact I; try reflexivity; apply binary_round_aux_signed.
Qed.

Lemma div_signed (a b : bool) (x y : number) :
  signed a x -> signed b y -> signed (xorb a b) (div x y).
Proof.
  unfold div, SFdiv.
  destruct x, y; cbn [signed]; intros; subst;
    try exact I; try reflexivity.
  destruct (SFdiv_core_binary _ _ _ _ _ _) as [[mz ez] lz].
  apply binary_round_aux_signed.
Qed.

Lemma div_pow2_nonneg (n d : positive) :
  0 <= (2 * Z.pos n + 2 ^ Z.pos d) / (2 * 2 ^ Z.pos d).
Proof.
  assert (0 < 2 ^ Z.pos d) by (apply Z.pow_pos_nonneg; lia).
  apply Z.div_pos; lia.
Qed.

Lemma div_pow2_nonpos (n d : positive) :
  (2 * Z.neg n + 2 ^ Z.pos d) / (2 * 2 ^ Z.pos d) <= 0.
Proof.
  assert (0 < 2 ^ Z.pos d) by (apply Z.pow_pos_nonneg; lia).
  assert ((2 * Z.neg n + 2 ^ Z.pos d) / (2 * 2 ^ Z.pos d) < 1); [| lia].
  apply Z.div_lt_upper_bound; lia.
Qed.

Lemma Math_round_indexable (x : number) :
  signed false x -> indexable (Math_round x).
Proof.
  destruct x as [s | s | | s m e]; cbn [signed Math_round]; intro H; subst;
    cbn [indexable]; try lia; try exact I.
  destruct e as [| p | p]; cbn [indexable].
  - lia.
  - assert (0 < 2 ^ Z.pos p) by (apply Z.pow_pos_nonneg; lia). lia.
  - apply div_pow2_nonneg.
Qed.

(** [Math.round] of a number with the sign bit set is no length of a
    non-empty array. *)
Lemma negative_length_not_allocated (x : number) (n : nat) :
  signed true x -> Float32Array_new (Math_round x) <> Some (S n).
Proof.
  destruct x as [s | s | | s m e]; cbn [signed Math_round]; intro H; subst;
    cbn [Float32Array_new]; try discriminate.
  assert (Hz : forall z, z <= 0 -> Float32Array_new (Int z) <> Some (S n)).
  { intros z Hz. cbn [Float32Array_new].
    destruct (Z.leb_spec 0 z); cbn [andb]; [| discriminate].
    destruct (z <=? 2 ^ 53 - 1); [| discriminate].
    replace z with 0 by lia. discriminate. }
  destruct e as [| p | p]; apply Hz.
  - lia.
  - assert (0 < 2 ^ Z.pos p) by (apply Z.pow_pos_nonneg; lia). lia.
  - apply div_pow2_nonpos.
Qed.

(** A result array with at least one element is only created for a ratio
    that is not negative. *)
Lemma ratio_signed (buffer : list number) (r : number) (n : nat) :
  Float32Array_new (newLength buffer r) = Some (S n) -> signed false r.
Proof.
  intro H.
  assert (HL : signed false (ofZ (Z.of_nat (length buffer))))
    by (apply ofZ_signed; lia).
  destruct r as [s | s | | s m e]; cbn [signed]; try exact I;
    (destruct s; [exfalso | reflexivity]);
    refine (negative_length_not_allocated _ n _ H);
    apply (div_signed false true); cbn [signed]; auto.
Qed.

(** The inner loop adds the samples of [rest] below the limit, in order,
    and counts them. *)
Lemma block_loop_spec64 (next : Integer) (rest : list number) :
  forall i accum count,
    block_loop rest i next accum count
    = (fold_left add (slice rest (Int 0) (match next with Int h => Int (h - i) | _ => next end)) accum,
       count + Z.of_nat (length (slice rest (Int 0) (match next with Int h => Int (h - i) | _ => next end)))).
Proof.
  induction rest as [| x rest IH]; intros i accum count.
  - cbn [block_loop]. destruct next; cbn; rewrite ?firstn_nil; cbn; f_equal; lia.
  - cbn [block_loop]. destruct next as [h | | |]; cbn [ltb].
    + destruct (Z.ltb_spec i h) as [Hlt | Hge].
      * rewrite IH. cbn [slice]. rewrite !Z.sub_0_r. cbn [Z.to_nat skipn].
        replace (Z.to_nat (h - i)) with (S (Z.to_nat (h - (i + 1)))) by lia.
        cbn [firstn fold_left length]. f_equal. lia.
      * cbn [slice]. replace (Z.to_nat (h - i - 0)) with O by lia.
        cbn. f_equal. lia.
    + rewrite IH. cbn [slice Z.to_nat skipn fold_left length]. f_equal. lia.
    + cbn. f_equal. lia.
    + cbn. f_equal. lia.
Qed.

Lemma for_loop_spec (buffer : list number) (offsetBuffer next : Integer) :
  indexable offsetBuffer ->
  for_loop buffer offsetBuffer next
  = Some (sum (slice buffer offsetBuffer next),
          Z.of_nat (length (slice buffer offsetBuffer next))).
Proof.
  intro H. unfold for_loop, sum.
  destruct offsetBuffer as [z | | |]; cbn [indexable] in H; try contradiction.
  - destruct (ltb (Int z) next) eqn:E.
    + destruct (Z.leb_spec 0 z); [| lia].
      rewrite block_loop_spec64.
      destruct next as [h | | |]; cbn [ltb] in E; try discriminate;
        cbn [slice Z.to_nat skipn]; rewrite ?Z.sub_0_r; reflexivity.
    + destruct next as [h | | |]; cbn [ltb] in E; try discriminate;
        cbn [slice]; try reflexivity.
      apply Z.ltb_ge in E. replace (Z.to_nat (h - z)) with O by lia.
      reflexivity.
  - destruct next; reflexivity.
  - destruct next; reflexivity.
Qed.

(** The outer loop from output index [k] with an input offset it can read
    from: every sample is the stored mean of its block. *)
Lemma fill_spec (buffer : list number) (r : number) :
  signed false r ->
  forall remaining k offsetBuffer,
    indexable offsetBuffer ->
    exists out,
      fill remaining buffer r (Z.of_nat k) offsetBuffer = Some out
      /\ length out = remaining
      /\ forall j, (j < remaining)%nat ->
           let blk := slice buffer
                            (match j with O => offsetBuffer | S _ => boundary r (k + j) end)
                            (boundary r (S (k + j))) in
           nth j out zero
           = fround (match blk with [] => zero | _ => mean blk end).
Proof.
  intros Hr. induction remaining as [| remaining IH]; intros k off Hoff.
  - exists []. repeat split. intros j Hj. lia.
  - cbn [fill].
    replace (Z.of_nat k + 1) with (Z.of_nat (S k)) by lia.
    change (Math_round (mul (ofZ (Z.of_nat (S k))) r)) with (boundary r (S k)).
    assert (Hnext : indexable (boundary r (S k))).
    { apply Math_round_indexable. apply (mul_signed false false); [| exact Hr].
      apply ofZ_signed. lia. }
    rewrite for_loop_spec by exact Hoff.
    destruct (IH (S k) (boundary r (S k)) Hnext) as (out & E & Hl & Hn).
    rewrite E. eexists. split; [reflexivity |]. split; [cbn; now rewrite Hl |].
    intros j Hj. destruct j as [| j].
    + cbn [nth]. rewrite Nat.add_0_r.
      destruct (slice buffer off (boundary r (S k))) as [| y b]; [reflexivity |].
      cbn [length]. destruct (Z.eqb_spec (Z.of_nat (S (length b))) 0); [lia |].
      reflexivity.
    + cbn [nth]. rewrite (Hn j) by lia. cbn zeta.
      replace (k + S j)%nat with (S k + j)%nat by lia.
      destruct j; [rewrite Nat.add_0_r |]; reflexivity.
Qed.

(** What a call that resamples returns: a result of the length that was
    allocated, whose sample [k] is the stored mean of block [k], and 0 for
    an empty block. *)
Lemma downsampleBuffer_resamples
      (buffer : list number) (srcRate dstRate : number) (n : nat) :
  strictEq dstRate srcRate = false ->
  Float32Array_new (newLength buffer (div srcRate dstRate)) = Some n ->
  exists out,
    downsampleBuffer buffer srcRate dstRate = Returns out
    /\ length out = n
    /\ forall k, (k < n)%nat ->
         nth k out zero
         = fround (match block buffer (div srcRate dstRate) k with
                   | [] => zero
                   | _ => mean (block buffer (div srcRate dstRate) k)
                   end).
Proof.
  intros Hne Hn. unfold downsampleBuffer. rewrite Hne, Hn.
  set (r := div srcRate dstRate) in *.
  assert (F : exists out,
             fill n buffer r 0 (Int 0) = Some out /\ length out = n
             /\ forall j, (j < n)%nat ->
                  nth j out zero
                  = fround (match block buffer r j with
                            | [] => zero | _ => mean (block buffer r j) end)).
  { destruct n as [| n].
    - exists []. repeat split. intros j Hj. lia.
    - pose proof (ratio_signed buffer r n Hn) as Hr.
      destruct (fill_spec buffer r Hr (S n) 0%nat (Int 0)) as (out & E & Hl & Hj);
        [cbn; lia |].
      exists out. split; [exact E |]. split; [exact Hl |].
      intros j Hlt. rewrite (Hj j Hlt). cbn zeta. unfold block.
      rewrite Nat.add_0_l. destruct j; reflexivity. }
  destruct F as (out & E & Hl & Hj). rewrite E.
  exists out. split; [reflexivity |]. split; [exact Hl | exact Hj].
Qed.

(** Every call ends by returning an array or by the RangeError of
    [new Float32Array]: the cases [for_loop] leaves out do not arise. *)
Lemma downsampleBuffer_completes
      (buffer : list number) (srcRate dstRate : number) :
  downsampleBuffer buffer srcRate dstRate = RangeError
  \/ exists out, downsampleBuffer buffer srcRate dstRate = Returns out.
Proof.
  destruct (strictEq dstRate srcRate) eqn:Hne.
  - right. exists buffer. unfold downsampleBuffer. now rewrite Hne.
  - destruct (Float32Array_new (newLength buffer (div srcRate dstRate)))
      as [n |] eqn:Hn.
    + right.
      destruct (downsampleBuffer_resamples buffer srcRate dstRate n Hne Hn)
        as (out & E & _).
      now exists out.
    + left. unfold downsampleBuffer. now rewrite Hne, Hn.
Qed.




End Resampler64Facts.

(** ** The voice-activity gate *)

Module VADFacts.
Import JS VAD.

Lemma slice_last_snoc {A} (n : nat) (l : list A) (x : A) :
  slice_last (S n) (l ++ [x]) = slice_last n l ++ [x].
Proof.
  unfold slice_last. rewrite length_app. cbn [length].
  replace (length l + 1 - S n)%nat with (length l - n)%nat by lia.
  rewrite skipn_app.
  replace (length l - n - length l)%nat with O by lia. reflexivity.
Qed.

Lemma slice_last_map {A B} (f : A -> B) (n : nat) (l : list A) :
  slice_last n (map f l) = map f (slice_last n l).
Proof. unfold slice_last. now rewrite length_map, skipn_map. Qed.

Lemma slice_last_short {A} (n : nat) (l : list A) :
  (length l <= n)%nat -> slice_last n l = l.
Proof.
  intro H. unfold slice_last.
  replace (length l - n)%nat with O by lia. reflexivity.
Qed.

Lemma length_slice_last {A} (n : nat) (l : list A) :
  length (slice_last n l) = Nat.min n (length l).
Proof. unfold slice_last. rewrite length_skipn. lia. Qed.

(** Pushing keeps the newest [maxPreRoll] frames. *)
Lemma pushPreRoll_length (frames : list Frame) (pcm16 : Frame) :
  (length frames <= maxPreRoll)%nat ->
  (length (pushPreRoll frames pcm16) <= maxPreRoll)%nat.
Proof.
  intro H. unfold pushPreRoll, shift.
  destruct (Nat.ltb_spec maxPreRoll (length (frames ++ [pcm16]))) as [L | L].
  - destruct (frames ++ [pcm16]) eqn:E; cbn [tl length] in *; [lia |].
    assert (length (frames ++ [pcm16]) = S (length l)) by now rewrite E.
    rewrite length_app in *. cbn [length] in *. lia.
  - exact L.
Qed.

Lemma pushPreRoll_slice (frames rest : list Frame) (pcm16 : Frame) :
  (length frames <= maxPreRoll)%nat ->
  slice_last maxPreRoll (pushPreRoll frames pcm16 ++ rest)
  = slice_last maxPreRoll (frames ++ pcm16 :: rest).
Proof.
  intro H. unfold pushPreRoll, shift.
  replace (frames ++ pcm16 :: rest) with ((frames ++ [pcm16]) ++ rest)
    by now rewrite <- app_assoc.
  destruct (Nat.ltb_spec maxPreRoll (length (frames ++ [pcm16]))) as [L | L];
    [| reflexivity].
  destruct (frames ++ [pcm16]) as [| h t] eqn:E; [reflexivity |].
  cbn [tl]. assert (Ht : length t = maxPreRoll).
  { assert (E' : length (frames ++ [pcm16]) = S (length t)) by now rewrite E.
    rewrite length_app in E'. cbn [length] in *. lia. }
  unfold slice_last. cbn [app length]. rewrite length_app, Ht.
  replace (S (maxPreRoll + length rest) - maxPreRoll)%nat
    with (S (maxPreRoll + length rest - maxPreRoll)) by lia.
  reflexivity.
Qed.

Lemma pushPreRoll_eq (frames : list Frame) (pcm16 : Frame) :
  (length frames <= maxPreRoll)%nat ->
  pushPreRoll frames pcm16 = slice_last maxPreRoll (frames ++ [pcm16]).
Proof.
  intro H. rewrite <- (pushPreRoll_slice frames [] pcm16 H), app_nil_r.
  symmetry. apply slice_last_short. now apply pushPreRoll_length.
Qed.

Lemma slice_last_twice {A} (n m : nat) (l : list A) :
  (n <= m)%nat -> slice_last n (slice_last m l) = slice_last n l.
Proof.
  intro H. unfold slice_last at 1. rewrite length_slice_last.
  unfold slice_last. rewrite skipn_skipn. f_equal. lia.
Qed.

Lemma flush_open (frames : list Frame) : flush true frames = frames.
Proof. induction frames as [| c l IH]; cbn; [| rewrite IH]; reflexivity. Qed.

Lemma flush_closed (frames : list Frame) : flush false frames = [].
Proof. induction frames as [| c l IH]; cbn; auto. Qed.

Lemma run_app (sampleRate : Q) (wsOpen : bool) (a b : list (list Q * Z)) :
  forall st,
    run sampleRate wsOpen st (a ++ b)
    = let '(st1, out1) := run sampleRate wsOpen st a in
      let '(st2, out2) := run sampleRate wsOpen st1 b in
      (st2, out1 ++ out2).
Proof.
  induction a as [| [data now] a IH]; intro st.
  - cbn. now destruct (run sampleRate wsOpen st b).
  - cbn [app run].
    destruct (onmessage sampleRate wsOpen st data now) as [st1 out1].
    rewrite IH.
    destruct (run sampleRate wsOpen st1 a) as [st2 out2].
    destruct (run sampleRate wsOpen st2 b) as [st3 out3].
    now rewrite app_assoc.
Qed.

(** While no frame is voiced and the gate is not in speech, nothing is sent
    and the pre-roll holds the newest [maxPreRoll] encoded frames. *)
Lemma run_quiet (sampleRate : Q) (wsOpen : bool) (quiet : list (list Q * Z)) :
  forall st,
    inSpeech st = false ->
    (length (preRollFrames st) <= maxPreRoll)%nat ->
    Forall (fun m => isVoice sampleRate (fst m) = false) quiet ->
    run sampleRate wsOpen st quiet
    = (mkState
         (slice_last maxPreRoll
            (preRollFrames st ++ map (fun m => encoded sampleRate (fst m)) quiet))
         false (lastSpeechTs st), []).
Proof.
  induction quiet as [| [data now] quiet IH]; intros st Hs Hl Hq.
  - cbn [run map]. rewrite app_nil_r, slice_last_short by exact Hl.
    destruct st; cbn in *; now subst.
  - inversion Hq as [| m l Hv Hq']; subst. cbn [fst] in Hv.
    cbn [run]. unfold onmessage. unfold isVoice in Hv. rewrite Hv, Hs.
    rewrite IH; cbn [inSpeech preRollFrames lastSpeechTs];
      [| reflexivity | now apply pushPreRoll_length | exact Hq'].
    cbn [map fst app]. fold (encoded sampleRate data).
    now rewrite pushPreRoll_slice.
Qed.

(** C1, what the code does: after [N] frames below the
    threshold, a frame at or above it makes the open socket receive the
    last [min(N, 7)] quiet frames, oldest first, and then the loud frame
    twice: once as the newest entry of the pre-roll, into which it was
    pushed before the flush, and once as the current frame. *)
Theorem onset_sends_current_frame_twice
        (sampleRate : Q) (quiet : list (list Q * Z)) (loud : list Q) (now : Z) :
  Forall (fun m => isVoice sampleRate (fst m) = false) quiet ->
  isVoice sampleRate loud = true ->
  snd (run sampleRate true initial (quiet ++ [(loud, now)]))
  = map (fun m => encoded sampleRate (fst m))
        (slice_last (Nat.min (length quiet) 7) quiet)
    ++ [encoded sampleRate loud; encoded sampleRate loud].
Proof.
  intros Hq Hl. rewrite run_app.
  rewrite (run_quiet sampleRate true quiet initial eq_refl) by
    (cbn; auto; unfold maxPreRoll; lia).
  cbn [run preRollFrames initial app]. unfold onmessage.
  unfold isVoice in Hl. rewrite Hl. cbn [snd app].
  fold (encoded sampleRate loud).
  rewrite flush_open. cbn [preRollFrames send].
  rewrite pushPreRoll_eq by (rewrite length_slice_last; apply Nat.le_min_l).
  unfold maxPreRoll. rewrite slice_last_snoc, slice_last_twice by lia.
  rewrite slice_last_map, app_nil_r, <- app_assoc. cbn [app]. do 2 f_equal.
  unfold slice_last. f_equal. lia.
Qed.

(** Eight quiet frames and a loud one, at 16 kHz with the socket open.  The
    first quiet frame is not sent, the other seven are, and the loud frame
    arrives twice. *)
Example onset_after_eight_quiet_frames :
  snd (run 16000 true initial
           [([1 # 1000], 1%Z); ([2 # 1000], 2%Z); ([3 # 1000], 3%Z);
            ([4 # 1000], 4%Z); ([5 # 1000], 5%Z); ([6 # 1000], 6%Z);
            ([7 # 1000], 7%Z); ([8 # 1000], 8%Z); ([1 # 2], 9%Z)])
  = [[65]; [98]; [131]; [163]; [196]; [229]; [262]; [16383]; [16383]]%Z.
Proof. reflexivity. Qed.

Lemma onset_sends_current_frame_twice_witness :
  snd (run 16000 true initial
           ([([0; 0], 1%Z)] ++ [([1 # 2; 1 # 2], 2%Z)]))
  = map (fun m => encoded 16000 (fst m))
        (slice_last (Nat.min (length [([0; 0], 1%Z)]) 7) [([0; 0], 1%Z)])
    ++ [encoded 16000 [1 # 2; 1 # 2]; encoded 16000 [1 # 2; 1 # 2]].
Proof.
  apply (onset_sends_current_frame_twice 16000 [([0; 0], 1%Z)] [1 # 2; 1 # 2] 2%Z).
  - repeat constructor.
  - reflexivity.
Defined.

End VADFacts.

(** ** The transport *)

Module TransportFacts.
Import Transport.

Local Open Scope string_scope.

(** Once the event loop has come to rest, more fuel changes nothing. *)
Lemma pump_more_fuel (connects : bool) (fuel : nat) :
  forall k p pending p' effs,
    pump fuel connects p pending = (p', [], effs) ->
    pump (fuel + k) connects p pending = (p', [], effs).
Proof.
  induction fuel as [| fuel IH]; intros k p pending p' effs H.
  - cbn in H. injection H as -> -> <-. destruct k; reflexivity.
  - destruct pending as [| ev pending]; [exact H |].
    cbn [pump Nat.add] in *.
    destruct (handle p ev) as [p1 effs1].
    destruct (pump fuel connects p1 _) as [[p2 rest] effs2] eqn:E.
    injection H as -> -> <-.
    now rewrite (IH k _ _ _ _ E).
Qed.

Lemma call_more_fuel (connects : bool) (fuel k : nat)
      (r : Provider * list Effect) (p' : Provider) (effs : list Effect) :
  call fuel connects r = (p', [], effs) ->
  call (fuel + k) connects r = (p', [], effs).
Proof.
  unfold call. destruct r as [p effs0].
  destruct (pump fuel connects p _) as [[p2 rest] effs2] eqn:E.
  intro H. injection H as -> -> <-.
  now rewrite (pump_more_fuel _ _ k _ _ _ _ E).
Qed.

(** The delay of each attempt that is made. *)
Lemma attemptReconnect_schedules (p : Provider) :
  (0 <= reconnectAttempts p < maxReconnectAttempts)%Z ->
  attemptReconnect p
  = (mkProvider (ws p) (isListening p) (onTranscript p) (onError p)
                (reconnectAttempts p + 1),
     [SetTimeout (Z.min (1000 * 2 ^ (reconnectAttempts p + 1)) 10000)]).
Proof.
  intro H. unfold attemptReconnect, backoff.
  destruct (Z.ltb_spec (reconnectAttempts p) maxReconnectAttempts); [reflexivity | lia].
Qed.

(** With the attempts used up nothing is scheduled and the failure is
    reported. *)
Lemma attemptReconnect_gives_up (p : Provider) :
  (maxReconnectAttempts <= reconnectAttempts p)%Z ->
  attemptReconnect p
  = (p, ConsoleError "[Deepgram] Max reconnection attempts reached"
          :: callOnError p
               "Lost connection to Deepgram service and could not reconnect").
Proof.
  intro H. unfold attemptReconnect.
  destruct (Z.ltb_spec (reconnectAttempts p) maxReconnectAttempts); [lia | reflexivity].
Qed.

(** C7: when every connection attempt fails at once, a provider whose
    counter is 0 makes five reconnect attempts, after 2000, 4000, 8000,
    10000 and 10000 ms, which is [min(1000 * 2^n, 10000)] for
    n = 1..5; when the fifth has failed it reports that the connection is
    lost, and the event loop comes to rest with nothing scheduled: there is
    no sixth attempt.  An [open] event sets the counter to 0. *)
Theorem reconnect_backoff_then_fatal
        (listening hasSink hasOnError : bool) (k : nat) :
  let p0 := mkProvider false listening hasSink hasOnError 0 in
  let '(p, pending, effs) := call (20 + k) false (initialize p0) in
  timeouts effs = map (fun n => Z.min (1000 * 2 ^ n) 10000) [1; 2; 3; 4; 5]%Z
  /\ timeouts effs = [2000; 4000; 8000; 10000; 10000]%Z
  /\ sockets effs = 6%nat
  /\ pending = []
  /\ reconnectAttempts p = 5%Z
  /\ JS.slice_last (if hasOnError then 2 else 1) effs
     = ConsoleError "[Deepgram] Max reconnection attempts reached"
         :: (if hasOnError
             then [CallOnError
                     "Lost connection to Deepgram service and could not reconnect"]
             else [])
  /\ fst (handle p Close) = p
  /\ timeouts (snd (handle p Close)) = []
  /\ (forall q, reconnectAttempts (fst (handle q Open)) = 0%Z).
Proof.
  intro p0.
  destruct (call 20 false (initialize p0)) as [[p pending] effs] eqn:E.
  assert (P : pending = []).
  { subst p0. destruct listening, hasSink, hasOnError;
      vm_compute in E; now injection E as _ <- _. }
  subst pending. rewrite (call_more_fuel _ _ k _ _ _ E).
  subst p0. destruct listening, hasSink, hasOnError;
    vm_compute in E; injection E as <- <-;
    repeat split; reflexivity.
Qed.

Lemma connected_reached (hasOnError : bool) :
  fst (fst (call 2 true (initialize (startListening hasOnError newProvider))))
  = connected true true hasOnError.
Proof. destruct hasOnError; reflexivity. Qed.

(** C8, what the code does after [disconnect].  The socket is closed, its [close] event
    runs the [onclose] handler, which calls [attemptReconnect] as for a lost
    connection: a reconnect is scheduled after 2000 ms, and when the timer
    fires a new socket is opened and stored. *)
Theorem disconnect_is_followed_by_reconnect
        (listening hasSink hasOnError : bool) (k : nat) :
  call (3 + k) true (disconnect (connected listening hasSink hasOnError))
  = (connected false hasSink hasOnError, [],
     [WsClose; SetTimeout 2000; NewWebSocket]).
Proof.
  apply (call_more_fuel true 3 k).
  destruct listening, hasSink, hasOnError; reflexivity.
Qed.

(** C9, as stated, fails: a transcript event whose text is empty is not
    handed to the registered sink. *)
Lemma empty_transcript_not_forwarded :
  handle (connected true true true)
         (Message (mkEvent Transcript (Some "") (Some true) None))
  = (connected true true true, []).
Proof. reflexivity. Qed.

(** C9, amended: a transcript event with text [t] and flag [f] makes
    exactly one call of the sink, with [t] and [f], when [t] is not empty
    and a sink is registered, and no call otherwise; the AssemblyAI
    provider does the same with the flag false for a [Transcript] message
    and true for a [FinalTranscript] message. *)
Theorem transcript_forwarded_when_nonempty
        (p : Provider) (t : string) (f : bool) (msg : option string) :
  handle p (Message (mkEvent Transcript (Some t) (Some f) msg))
  = (p, if negb (t =? "") && onTranscript p
        then [CallOnTranscript t f] else [])
  /\ AssemblyAI.handleMessage p
       (AssemblyAI.mkMessage
          (if f then AssemblyAI.FinalTranscript else AssemblyAI.Transcript)
          (Some t) msg)
     = (if negb (t =? "") && onTranscript p
        then [CallOnTranscript t f] else []).
Proof.
  split.
  - cbn [handle]. f_equal. unfold handleMessage. cbn.
    destruct t, f, (onTranscript p); reflexivity.
  - unfold AssemblyAI.handleMessage.
    destruct t, f, (onTranscript p); reflexivity.
Qed.

End TransportFacts.

(** ** The speaker tracker *)

Module VoiceAnalyzerFacts.
Import JS JSFacts VoiceAnalyzer.

(** *** The confidence of a decision *)

Lemma decide_confidence_le (d0 d1 : Q) :
  d0 <= d1 -> 0 < d1 -> snd (decide d0 d1) == d0 / d1.
Proof.
  intros Hle Hpos. unfold decide, Math_max, Math_min. cbn [snd].
  assert (E : Qle_bool d0 d1 = true) by now apply Qle_bool_iff.
  rewrite E.
  assert (P : Qlt_bool 0 d1 = true) by now apply Qlt_bool_iff.
  rewrite P. reflexivity.
Qed.

Lemma decide_confidence_ge (d0 d1 : Q) :
  d1 <= d0 -> 0 < d0 -> snd (decide d0 d1) == d1 / d0.
Proof.
  intros Hle Hpos. unfold decide, Math_max, Math_min. cbn [snd].
  destruct (Qle_bool d0 d1) eqn:E.
  - apply Qle_bool_iff in E.
    assert (Heq : d0 == d1) by lra.
    assert (P : Qlt_bool 0 d1 = true) by (apply Qlt_bool_iff; lra).
    rewrite P, Heq. reflexivity.
  - assert (P : Qlt_bool 0 d0 = true) by now apply Qlt_bool_iff.
    rewrite P. reflexivity.
Qed.

Lemma decide_confidence_zero (d0 d1 : Q) :
  d0 == 0 -> d1 == 0 -> snd (decide d0 d1) = 1 # 2.
Proof.
  intros H0 H1. unfold decide. cbn [snd].
  assert (P : Qlt_bool 0 (Math_max d0 d1) = false).
  { apply Qlt_bool_false.
    destruct (Math_max_spec d0 d1) as [_ [_ [E | E]]]; rewrite E; lra. }
  now rewrite P.
Qed.

Lemma ratio_lt (t a b : Q) : 0 < b -> (t < a / b <-> t * b < a).
Proof.
  intro Hb. split; intro H.
  - apply (Qmult_lt_compat_r _ _ b Hb) in H.
    assert (E : a / b * b == a) by (field; lra).
    now rewrite E in H.
  - apply Qlt_shift_div_l; assumption.
Qed.

Lemma ratio_unit (a b : Q) : 0 <= a -> a <= b -> 0 < b -> 0 <= a / b <= 1.
Proof.
  intros Ha Hab Hb. split.
  - apply Qle_shift_div_l; [exact Hb | lra].
  - apply Qle_shift_div_r; [exact Hb | lra].
Qed.

(** C3, as stated, fails in its second half.  With both profiles still
    zero the two distances of a frame of energy 1 are equal, 25 each, and
    the confidence is 1, the highest value there is, which passes the change
    threshold; with two distinct profiles and a frame that all but matches
    the first, the distances are 1/200 and 149/400 and the confidence is
    2/149, far below the threshold. *)
Lemma confidence_high_when_equal_low_when_apart :
  let fresh := create 16000 0 in
  let f := mkFeatures 150 1 1000 in
  let trained :=
    mkAnalyzer 16000 [] [] [] (mkProfile 100 0 1 1000 0)
               (mkProfile 200 0 1 2000 0) 0 in
  let g := mkFeatures 101 1 1000 in
  calculateDistance f (profile0 fresh) == 25
  /\ calculateDistance f (profile1 fresh) == 25
  /\ snd (detectSpeakerChange fresh f) == 1
  /\ speakerChangeThreshold < snd (detectSpeakerChange fresh f)
  /\ calculateDistance g (profile0 trained) == 1 # 200
  /\ calculateDistance g (profile1 trained) == 149 # 400
  /\ snd (detectSpeakerChange trained g) == 2 # 149
  /\ snd (detectSpeakerChange trained g) < speakerChangeThreshold.
Proof. vm_compute. repeat split; reflexivity. Qed.

(** C3, amended: for non-negative distances the confidence is the
    smaller distance divided by the larger one, and 0.5 when both are zero;
    it lies in [0, 1], it is 1, its highest value, when the two distances
    are equal, and it exceeds a bound [t] exactly when the smaller distance
    exceeds [t] times the larger one: the confidence is high when the
    distances are close and low when they are far apart. *)
Theorem confidence_is_min_over_max (d0 d1 : Q) :
  0 <= d0 -> 0 <= d1 ->
  let c := snd (decide d0 d1) in
  (d0 <= d1 -> 0 < d1 -> c == d0 / d1)
  /\ (d1 <= d0 -> 0 < d0 -> c == d1 / d0)
  /\ (d0 == 0 -> d1 == 0 -> c = 1 # 2)
  /\ 0 <= c <= 1
  /\ (0 < d0 -> d0 == d1 -> c == 1)
  /\ (forall t, d0 <= d1 -> 0 < d1 -> (t < c <-> t * d1 < d0))
  /\ (forall t, d1 <= d0 -> 0 < d0 -> (t < c <-> t * d0 < d1)).
Proof.
  intros H0 H1 c. subst c.
  split; [apply decide_confidence_le |].
  split; [apply decide_confidence_ge |].
  split; [apply decide_confidence_zero |].
  split; [| split; [| split]].
  - destruct (Qlt_le_dec d1 d0) as [L | L].
    + rewrite decide_confidence_ge by lra. apply ratio_unit; lra.
    + destruct (Qlt_le_dec 0 d1) as [P | P].
      * rewrite decide_confidence_le by lra. apply ratio_unit; lra.
      * rewrite decide_confidence_zero by lra. split; discriminate.
  - intros P E. rewrite decide_confidence_le by lra.
    rewrite E. field. lra.
  - intros t L P. rewrite decide_confidence_le by assumption.
    now apply ratio_lt.
  - intros t L P. rewrite decide_confidence_ge by assumption.
    now apply ratio_lt.
Qed.

Lemma confidence_is_min_over_max_witness :
  snd (decide (1 # 200) (149 # 400)) == (1 # 200) / (149 # 400).
Proof.
  apply (confidence_is_min_over_max (1 # 200) (149 # 400));
    [discriminate | discriminate | discriminate | reflexivity].
Defined.

(** *** The feature history *)

Lemma length_shift_snoc {A} (l : list A) (x : A) :
  length (shift (l ++ [x])) = length l.
Proof.
  unfold shift. destruct l; cbn; [reflexivity |].
  rewrite length_app. cbn. lia.
Qed.

Lemma pushHistory_length (a : Analyzer) (f : Features) :
  (length (pitchHistory a) <= analysisWindowSize)%nat ->
  length (pitchHistory (pushHistory a f))
  = Nat.min (S (length (pitchHistory a))) analysisWindowSize.
Proof.
  intro H. unfold pushHistory. rewrite length_app. cbn [length].
  destruct (Nat.ltb_spec analysisWindowSize (length (pitchHistory a) + 1)) as [L | L];
    cbn [pitchHistory].
  - rewrite length_shift_snoc. lia.
  - rewrite length_app. cbn [length]. lia.
Qed.

Lemma pushHistory_aligned (a : Analyzer) (f : Features) :
  aligned a -> aligned (pushHistory a f).
Proof.
  intros [H1 [H2 [H3 H4]]]. unfold aligned, pushHistory.
  rewrite length_app. cbn [length].
  destruct (Nat.ltb_spec analysisWindowSize (length (pitchHistory a) + 1)) as [L | L];
    cbn [pitchHistory energyHistory spectralHistory currentSpeaker].
  - rewrite !length_shift_snoc. repeat split; auto.
  - rewrite !length_app. cbn [length]. repeat split; auto; lia.
Qed.

Lemma pushHistory_speaker (a : Analyzer) (f : Features) :
  currentSpeaker (pushHistory a f) = currentSpeaker a.
Proof. unfold pushHistory. now destruct (_ <? _)%nat. Qed.

Lemma decide_speaker (d0 d1 : Q) :
  (fst (decide d0 d1) = 0 \/ fst (decide d0 d1) = 1)%Z.
Proof. unfold decide. cbn [fst]. destruct (Qlt_bool d0 d1); auto. Qed.

(** Classification leaves the histories alone, keeps the speaker 0 or 1,
    and returns the speaker it stores. *)
Lemma classify_spec (a1 : Analyzer) (f : Features) (now : Z) :
  pitchHistory (fst (classify a1 f now)) = pitchHistory a1
  /\ energyHistory (fst (classify a1 f now)) = energyHistory a1
  /\ spectralHistory (fst (classify a1 f now)) = spectralHistory a1
  /\ speaker (snd (classify a1 f now)) = currentSpeaker (fst (classify a1 f now))
  /\ (currentSpeaker (fst (classify a1 f now)) = currentSpeaker a1
      \/ currentSpeaker (fst (classify a1 f now)) = 0%Z
      \/ currentSpeaker (fst (classify a1 f now)) = 1%Z).
Proof.
  unfold classify, detectSpeakerChange.
  pose proof (decide_speaker (calculateDistance f (profile0 a1))
                             (calculateDistance f (profile1 a1))) as D.
  destruct (decide _ _) as [newSpeaker confidence]. cbn [fst] in D.
  destruct (negb (newSpeaker =? currentSpeaker a1)%Z
            && Qlt_bool speakerChangeThreshold confidence).
  - unfold updateSpeakerProfile, setCurrentSpeaker.
    destruct (newSpeaker =? 0)%Z; cbn; repeat split; tauto.
  - cbn. repeat split; auto.
Qed.

Lemma classify_aligned (a1 : Analyzer) (f : Features) (now : Z) :
  aligned a1 -> aligned (fst (classify a1 f now)).
Proof.
  intros [H1 [H2 [H3 H4]]].
  destruct (classify_spec a1 f now) as [E1 [E2 [E3 [_ E5]]]].
  unfold aligned. rewrite E1, E2, E3. repeat split; auto.
  destruct E5 as [E5 | [E5 | E5]]; rewrite E5; auto.
Qed.

Lemma analyzeFeatures_aligned (a : Analyzer) (f : Features) (now : Z) :
  aligned a ->
  aligned (fst (analyzeFeatures a f now))
  /\ speaker (snd (analyzeFeatures a f now))
     = currentSpeaker (fst (analyzeFeatures a f now)).
Proof.
  intro H. unfold analyzeFeatures.
  pose proof (pushHistory_aligned a f H) as H1.
  destruct (10 <? length (pitchHistory (pushHistory a f)))%nat.
  - split; [now apply classify_aligned | apply classify_spec].
  - split; [exact H1 | reflexivity].
Qed.

Lemma analyzeFeatures_history (a : Analyzer) (f : Features) (now : Z) :
  pitchHistory (fst (analyzeFeatures a f now)) = pitchHistory (pushHistory a f).
Proof.
  unfold analyzeFeatures.
  destruct (10 <? length (pitchHistory (pushHistory a f)))%nat;
    [apply classify_spec | reflexivity].
Qed.

Lemma create_aligned (rate : Q) (now : Z) : aligned (create rate now).
Proof. unfold aligned, create, analysisWindowSize. cbn. repeat split; auto; lia. Qed.

Lemma reset_aligned (a : Analyzer) (now : Z) : aligned (reset a now).
Proof. unfold aligned, reset, analysisWindowSize. cbn. repeat split; auto; lia. Qed.

Section Extraction.

Variables extractPitch extractEnergy extractSpectralCentroid : list Q -> Q.

Local Abbreviation analyzeFrame :=
  (analyzeFrame extractPitch extractEnergy extractSpectralCentroid).
Local Abbreviation extract :=
  (extract extractPitch extractEnergy extractSpectralCentroid).
Local Abbreviation step := (step extractPitch extractEnergy extractSpectralCentroid).
Local Abbreviation after := (after extractPitch extractEnergy extractSpectralCentroid).

Lemma step_aligned (a : Analyzer) (c : Call) :
  aligned a ->
  aligned (fst (step a c))
  /\ match snd (step a c) with
     | Some r => speaker r = currentSpeaker (fst (step a c))
     | None => True
     end.
Proof.
  intro H. destruct c as [audioData now | now]; cbn [VoiceAnalyzer.step].
  - unfold VoiceAnalyzer.analyzeFrame.
    destruct (analyzeFeatures_aligned a (extract audioData) now H) as [H1 H2].
    destruct (analyzeFeatures a (extract audioData) now) as [a' r].
    split; assumption.
  - split; [apply reset_aligned | exact I].
Qed.

Lemma after_aligned (calls : list Call) :
  forall a, aligned a -> aligned (after a calls).
Proof.
  induction calls as [| c calls IH]; intros a H; [exact H |].
  cbn [VoiceAnalyzer.after fold_left]. apply IH. now apply step_aligned.
Qed.

(** C10: whatever calls of [analyzeFrame] and [reset] have been made on
    an analyzer since it was constructed, after the next call the three
    histories have the same length, that length is at most 50, the
    stored speaker is 0 or 1, and the speaker [analyzeFrame] returns
    is the stored one. *)
Theorem histories_aligned_speaker_binary
        (rate : Q) (t0 : Z) (calls : list Call) (c : Call) :
  let a' := fst (step (after (create rate t0) calls) c) in
  let r := snd (step (after (create rate t0) calls) c) in
  length (pitchHistory a') = length (energyHistory a')
  /\ length (energyHistory a') = length (spectralHistory a')
  /\ (length (pitchHistory a') <= 50)%nat
  /\ (currentSpeaker a' = 0 \/ currentSpeaker a' = 1)%Z
  /\ match r with
     | Some res => speaker res = currentSpeaker a'
                   /\ (speaker res = 0 \/ speaker res = 1)%Z
     | None => True
     end.
Proof.
  intros a' r. subst a' r.
  pose proof (after_aligned calls _ (create_aligned rate t0)) as H.
  destruct (step_aligned _ c H) as [[H1 [H2 [H3 H4]]] H5].
  repeat split; auto.
  destruct (snd (step _ c)) as [res |]; [| exact I].
  split; [exact H5 | now rewrite H5].
Qed.

(** Frames analysed one after the other. *)
Lemma frames_history (frames : list (list Q * Z)) :
  forall a,
    (length (pitchHistory a) <= analysisWindowSize)%nat ->
    length (pitchHistory
              (after a (map (fun m => AnalyzeFrame (fst m) (snd m)) frames)))
    = Nat.min (length (pitchHistory a) + length frames) analysisWindowSize.
Proof.
  induction frames as [| [audioData now] frames IH]; intros a H.
  - cbn. lia.
  - cbn [map VoiceAnalyzer.after fold_left fst snd VoiceAnalyzer.step].
    unfold VoiceAnalyzer.analyzeFrame.
    destruct (analyzeFeatures a (extract audioData) now) as [a' r] eqn:E.
    cbn [fst].
    assert (L : length (pitchHistory a')
                = Nat.min (S (length (pitchHistory a))) analysisWindowSize).
    { replace a' with (fst (analyzeFeatures a (extract audioData) now))
        by now rewrite E.
      rewrite analyzeFeatures_history. now apply pushHistory_length. }
    fold (after a' (map (fun m => AnalyzeFrame (fst m) (snd m)) frames)).
    rewrite IH by (rewrite L; lia).
    rewrite L. cbn [length]. lia.
Qed.

(** During the first ten frames the speaker stays what it was. *)
Lemma frames_speaker (frames : list (list Q * Z)) :
  forall a,
    (length (pitchHistory a) + length frames <= 10)%nat ->
    currentSpeaker
      (after a (map (fun m => AnalyzeFrame (fst m) (snd m)) frames))
    = currentSpeaker a.
Proof.
  induction frames as [| [audioData now] frames IH]; intros a H.
  - reflexivity.
  - cbn [map VoiceAnalyzer.after fold_left fst snd VoiceAnalyzer.step].
    cbn [length] in H.
    unfold VoiceAnalyzer.analyzeFrame, analyzeFeatures.
    assert (L : length (pitchHistory (pushHistory a (extract audioData)))
                = S (length (pitchHistory a))).
    { rewrite pushHistory_length by (unfold analysisWindowSize; lia).
      unfold analysisWindowSize. lia. }
    destruct (Nat.ltb_spec 10 (length (pitchHistory (pushHistory a (extract audioData)))))
      as [G | G]; [lia |].
    cbn [fst].
    fold (after (pushHistory a (extract audioData))
                (map (fun m => AnalyzeFrame (fst m) (snd m)) frames)).
    rewrite IH by (rewrite L; lia).
    apply pushHistory_speaker.
Qed.

(** C2, amended: counting the frames analysed since the analyzer was
    constructed or reset, classification is skipped for each of the
    first ten frames, which only enter the history and return the
    unchanged speaker with no change event, and it is performed for the
    eleventh frame and every frame after it. *)
Theorem classification_from_eleventh_frame
        (a0 : Analyzer) (frames : list (list Q * Z))
        (audioData : list Q) (now : Z) :
  pitchHistory a0 = [] ->
  let a := after a0 (map (fun m => AnalyzeFrame (fst m) (snd m)) frames) in
  let f := extract audioData in
  analyzeFrame a audioData now
  = if (length frames <? 10)%nat
    then (pushHistory a f, mkResult (currentSpeaker a0) None)
    else classify (pushHistory a f) f now.
Proof.
  intros H0 a f.
  assert (L : length (pitchHistory a) = Nat.min (length frames) analysisWindowSize).
  { subst a. rewrite frames_history; rewrite H0; cbn [length]; [reflexivity |].
    unfold analysisWindowSize. lia. }
  unfold VoiceAnalyzer.analyzeFrame, analyzeFeatures. fold f.
  rewrite pushHistory_length by (rewrite L; lia).
  rewrite L. unfold analysisWindowSize.
  destruct (Nat.ltb_spec (length frames) 10) as [G | G].
  - destruct (Nat.ltb_spec 10 (Nat.min (S (Nat.min (length frames) 50)) 50));
      [lia |].
    rewrite pushHistory_speaker. subst a.
    rewrite frames_speaker by (rewrite H0; cbn [length]; lia).
    reflexivity.
  - destruct (Nat.ltb_spec 10 (Nat.min (S (Nat.min (length frames) 50)) 50));
      [reflexivity | lia].
Qed.

End Extraction.

Lemma classification_from_eleventh_frame_witness :
  analyzeFrame (fun _ => 150) (fun _ => 1) (fun _ => 1000)
               (after (fun _ => 150) (fun _ => 1) (fun _ => 1000)
                      (create 16000 0)
                      (map (fun m => AnalyzeFrame (fst m) (snd m)) [([1 # 2], 1%Z)]))
               [1 # 2] 2
  = (pushHistory
       (after (fun _ => 150) (fun _ => 1) (fun _ => 1000)
              (create 16000 0)
              (map (fun m => AnalyzeFrame (fst m) (snd m)) [([1 # 2], 1%Z)]))
       (mkFeatures 150 1 1000),
     mkResult 0 None).
Proof.
  apply (classification_from_eleventh_frame
           (fun _ => 150) (fun _ => 1) (fun _ => 1000)
           (create 16000 0) [([1 # 2], 1%Z)] [1 # 2] 2).
  reflexivity.
Defined.

(** C2, as stated, fails at the tenth frame.  After nine frames the
    tenth brings the history to ten entries, which is not fewer than ten,
    and is not classified: [analyzeFrame] returns speaker 0 and no event,
    where classifying the frame switches to speaker 1 with a change
    event. *)
Lemma tenth_frame_not_classified :
  let f := mkFeatures 150 1 1000 in
  let a9 := feed (create 16000 0) (repeat (f, 1%Z) 9) in
  length (pitchHistory (pushHistory a9 f)) = 10%nat
  /\ snd (analyzeFeatures a9 f 5) = mkResult 0 None
  /\ speaker (snd (classify (pushHistory a9 f) f 5)) = 1%Z
  /\ changeEvent (snd (classify (pushHistory a9 f) f 5)) <> None
  /\ analyzeFeatures a9 f 5 <> classify (pushHistory a9 f) f 5.
Proof.
  vm_compute. repeat split; try reflexivity; discriminate.
Qed.

End VoiceAnalyzerFacts.


(** * Further properties *)

(** ** The voice-activity gate: hangover, closed socket, steady speech *)

Module VADMore.
Import JS VAD VADFacts Seq.

Lemma onmessage_closed (sampleRate : Q) (st : State) (data : list Q) (now : Z) :
  snd (onmessage sampleRate false st data now) = []
  /\ fst (onmessage sampleRate false st data now)
     = fst (onmessage sampleRate true st data now).
Proof.
  unfold onmessage.
  destruct (voiced _); [| destruct (inSpeech st);
                          [destruct (_ <=? _)%Z |]]; cbn [fst snd send];
    rewrite ?flush_closed; auto.
Qed.

(** X1: with the socket not open nothing is sent, whatever the frames are,
    and the gate ends in the state it would have reached with the socket
    open: the frames that would have been sent are dropped, the pre-roll that
    a voiced frame flushes included. *)
Theorem closed_socket_drops_frames
        (sampleRate : Q) (msgs : list (list Q * Z)) (st : State) :
  snd (run sampleRate false st msgs) = []
  /\ fst (run sampleRate false st msgs) = fst (run sampleRate true st msgs).
Proof.
  revert st. induction msgs as [| [data now] msgs IH]; intro st; [now cbn |].
  cbn [run].
  destruct (onmessage_closed sampleRate st data now) as [H1 H2].
  destruct (onmessage sampleRate false st data now) as [st1 out1].
  destruct (onmessage sampleRate true st data now) as [st1' out1'].
  cbn [fst snd] in H1, H2. subst st1' out1.
  destruct (IH st1) as [I1 I2].
  destruct (run sampleRate false st1 msgs) as [st2 out2].
  destruct (run sampleRate true st1 msgs) as [st2' out2'].
  cbn [fst snd] in *. now subst.
Qed.

(** Out of speech, frames below the threshold are not sent and the gate
    stays out of speech. *)
Lemma run_silent (sampleRate : Q) (wsOpen : bool) (quiet : list (list Q * Z)) :
  forall st,
    inSpeech st = false ->
    Forall (fun m => isVoice sampleRate (fst m) = false) quiet ->
    snd (run sampleRate wsOpen st quiet) = []
    /\ inSpeech (fst (run sampleRate wsOpen st quiet)) = false.
Proof.
  induction quiet as [| [data now] quiet IH]; intros st Hs Hq; [now cbn |].
  inversion Hq as [| m l Hv Hq']; subst. cbn [fst] in Hv.
  cbn [run]. unfold onmessage. unfold isVoice in Hv. rewrite Hv, Hs.
  destruct (IH (mkState (pushPreRoll (preRollFrames st)
                                      (PCM.convertFloat32ToInt16
                                         (Resampler.downsampleBuffer data sampleRate dstRate)))
                        false (lastSpeechTs st)) eq_refl Hq') as [I1 I2].
  destruct (run _ _ _ quiet) as [st2 out2]. cbn [fst snd] in *.
  now subst.
Qed.

(** X2: in speech, of a run of frames below the threshold the gate sends
    those that arrive up to [hangoverMs] after the last voiced frame, until
    the first one that arrives later; from that one on nothing is sent, and
    the gate is then out of speech. *)
Theorem hangover_sends_until_first_late_frame
        (sampleRate : Q) (quiet : list (list Q * Z)) (st : State) :
  inSpeech st = true ->
  Forall (fun m => isVoice sampleRate (fst m) = false) quiet ->
  snd (run sampleRate true st quiet)
  = map (fun m => encoded sampleRate (fst m))
        (takeWhile (fun m => (snd m - lastSpeechTs st <=? hangoverMs)%Z) quiet)
  /\ inSpeech (fst (run sampleRate true st quiet))
     = forallb (fun m => (snd m - lastSpeechTs st <=? hangoverMs)%Z) quiet.
Proof.
  revert st. induction quiet as [| [data now] quiet IH]; intros st Hs Hq.
  - cbn. auto.
  - inversion Hq as [| m l Hv Hq']; subst. cbn [fst] in Hv.
    cbn [run takeWhile forallb snd]. unfold onmessage.
    unfold isVoice in Hv. rewrite Hv, Hs.
    destruct (now - lastSpeechTs st <=? hangoverMs)%Z.
    + match goal with
      | |- context [run _ _ ?s quiet] =>
          destruct (IH s eq_refl Hq') as [I1 I2];
          destruct (run sampleRate true s quiet) as [st2 out2]
      end.
      cbn [fst snd lastSpeechTs send map app andb] in *.
      now subst.
    + match goal with
      | |- context [run _ _ ?s quiet] =>
          destruct (run_silent sampleRate true quiet s eq_refl Hq') as [I1 I2];
          destruct (run sampleRate true s quiet) as [st2 out2]
      end.
      cbn [fst snd map app andb] in *. now subst.
Qed.

Lemma hangover_sends_until_first_late_frame_witness :
  snd (run 16000 true (mkState [] true 0)
           [([0], 100%Z); ([0], 400%Z); ([0], 200%Z)])
  = [[0%Z]].
Proof.
  apply (hangover_sends_until_first_late_frame
           16000 [([0], 100%Z); ([0], 400%Z); ([0], 200%Z)] (mkState [] true 0)).
  - reflexivity.
  - repeat constructor.
Defined.

(** In speech and within the hangover, frames below the threshold are sent
    and kept in the pre-roll. *)
Lemma run_hangover (sampleRate : Q) (quiet : list (list Q * Z)) :
  forall st,
    inSpeech st = true ->
    (length (preRollFrames st) <= maxPreRoll)%nat ->
    Forall (fun m => isVoice sampleRate (fst m) = false) quiet ->
    Forall (fun m => (snd m - lastSpeechTs st <= hangoverMs)%Z) quiet ->
    run sampleRate true st quiet
    = (mkState
         (slice_last maxPreRoll
            (preRollFrames st ++ map (fun m => encoded sampleRate (fst m)) quiet))
         true (lastSpeechTs st),
       map (fun m => encoded sampleRate (fst m)) quiet).
Proof.
  induction quiet as [| [data now] quiet IH]; intros st Hs Hl Hq Hh.
  - cbn [run map]. rewrite app_nil_r, slice_last_short by exact Hl.
    destruct st; cbn in *; now subst.
  - inversion Hq as [| m l Hv Hq']; subst. cbn [fst] in Hv.
    inversion Hh as [| m l Ht Hh']; subst. cbn [snd] in Ht.
    cbn [run]. unfold onmessage. unfold isVoice in Hv. rewrite Hv, Hs.
    destruct (Z.leb_spec (now - lastSpeechTs st) hangoverMs) as [_ | C]; [| lia].
    rewrite IH; cbn [inSpeech preRollFrames lastSpeechTs];
      [| reflexivity | now apply pushPreRoll_length | exact Hq' | exact Hh'].
    cbn [map fst app send]. fold (encoded sampleRate data).
    now rewrite pushPreRoll_slice.
Qed.

(** X3: frames sent during the hangover are sent a second time.  After a
    voiced frame (pre-roll empty, in speech), quiet frames within the
    hangover are sent as they come and are also kept in the pre-roll, so
    the next voiced frame sends the newest of them again, up to 7, and
    then itself twice. *)
Theorem hangover_frames_are_sent_again
        (sampleRate : Q) (quiet : list (list Q * Z)) (loud : list Q) (now : Z)
        (st : State) :
  preRollFrames st = [] ->
  inSpeech st = true ->
  Forall (fun m => isVoice sampleRate (fst m) = false) quiet ->
  Forall (fun m => (snd m - lastSpeechTs st <= hangoverMs)%Z) quiet ->
  isVoice sampleRate loud = true ->
  snd (run sampleRate true st (quiet ++ [(loud, now)]))
  = map (fun m => encoded sampleRate (fst m)) quiet
    ++ map (fun m => encoded sampleRate (fst m)) (slice_last 7 quiet)
    ++ [encoded sampleRate loud; encoded sampleRate loud].
Proof.
  intros Hp Hs Hq Hh Hl. rewrite run_app.
  rewrite (run_hangover sampleRate quiet st Hs) by
    (auto; rewrite Hp; cbn; unfold maxPreRoll; lia).
  rewrite Hp. cbn [run app]. unfold onmessage.
  unfold isVoice in Hl. rewrite Hl. cbn [snd preRollFrames send].
  fold (encoded sampleRate loud).
  rewrite flush_open, app_nil_r.
  rewrite pushPreRoll_eq by (rewrite length_slice_last; apply Nat.le_min_l).
  unfold maxPreRoll. rewrite slice_last_snoc, slice_last_twice by lia.
  rewrite slice_last_map, <- !app_assoc. reflexivity.
Qed.

Lemma hangover_frames_are_sent_again_witness :
  snd (run 16000 true (mkState [] true 0)
           ([([1 # 1000], 100%Z)] ++ [([1 # 2], 200%Z)]))
  = [[32]; [32]; [16383]; [16383]]%Z.
Proof.
  apply (hangover_frames_are_sent_again
           16000 [([1 # 1000], 100%Z)] [1 # 2] 200 (mkState [] true 0)).
  - reflexivity.
  - reflexivity.
  - repeat constructor.
  - repeat constructor. cbn. unfold hangoverMs. lia.
  - reflexivity.
Defined.

(** X4: in steady speech every frame is sent twice.  From a state with an
    empty pre-roll, as every voiced frame leaves it, a run of voiced frames
    makes the open socket receive each encoded frame two times in a row. *)
Theorem steady_speech_sends_each_frame_twice
        (sampleRate : Q) (msgs : list (list Q * Z)) (st : State) :
  preRollFrames st = [] ->
  Forall (fun m => isVoice sampleRate (fst m) = true) msgs ->
  snd (run sampleRate true st msgs)
  = flat_map (fun m => [encoded sampleRate (fst m); encoded sampleRate (fst m)])
             msgs.
Proof.
  revert st. induction msgs as [| [data now] msgs IH]; intros st Hp Hv;
    [reflexivity |].
  inversion Hv as [| m l Hd Hv']; subst. cbn [fst] in Hd.
  cbn [run flat_map fst]. unfold onmessage.
  unfold isVoice in Hd. rewrite Hd, Hp.
  pose proof (IH (mkState [] true now) eq_refl Hv') as I.
  destruct (run sampleRate true (mkState [] true now) msgs) as [st2 out2].
  cbn [snd] in *. subst out2. reflexivity.
Qed.

Lemma steady_speech_sends_each_frame_twice_witness :
  snd (run 16000 true initial [([1 # 2], 1%Z); ([1 # 4], 2%Z)])
  = [[16383]; [16383]; [8191]; [8191]]%Z.
Proof.
  apply (steady_speech_sends_each_frame_twice
           16000 [([1 # 2], 1%Z); ([1 # 4], 2%Z)] initial).
  - reflexivity.
  - repeat constructor.
Defined.

Lemma onmessage_bounds (sampleRate : Q) (wsOpen : bool) (st : State)
      (data : list Q) (now : Z) :
  (length (preRollFrames st) <= maxPreRoll)%nat ->
  (length (preRollFrames (fst (onmessage sampleRate wsOpen st data now)))
   <= maxPreRoll)%nat
  /\ (length (snd (onmessage sampleRate wsOpen st data now)) <= 9)%nat.
Proof.
  intro H. unfold onmessage.
  pose proof (pushPreRoll_length (preRollFrames st)
                (PCM.convertFloat32ToInt16
                   (Resampler.downsampleBuffer data sampleRate dstRate)) H) as P.
  unfold maxPreRoll in *.
  destruct (voiced _); [| destruct (inSpeech st); [destruct (_ <=? _)%Z |]];
    cbn [fst snd preRollFrames length]; destruct wsOpen;
    rewrite ?flush_open, ?flush_closed, ?length_app; cbn [send length]; lia.
Qed.

(** X5: the pre-roll never holds more than 8 frames, and one message from
    the worklet never makes the handler send more than 9 frames (the
    pre-roll and the current frame), whatever the frames, the times and the
    state of the socket. *)
Theorem preroll_and_burst_bounded
        (sampleRate : Q) (wsOpen : bool) (msgs : list (list Q * Z))
        (data : list Q) (now : Z) :
  let st := fst (run sampleRate wsOpen initial msgs) in
  (length (preRollFrames st) <= 8)%nat
  /\ (length (snd (onmessage sampleRate wsOpen st data now)) <= 9)%nat.
Proof.
  intro st.
  assert (H : (length (preRollFrames st) <= maxPreRoll)%nat).
  { subst st.
    assert (G : forall s, (length (preRollFrames s) <= maxPreRoll)%nat ->
                          (length (preRollFrames
                                     (fst (run sampleRate wsOpen s msgs)))
                           <= maxPreRoll)%nat).
    { induction msgs as [| [d n] msgs IH]; intros s Hs; [exact Hs |].
      cbn [run].
      destruct (onmessage_bounds sampleRate wsOpen s d n Hs) as [B _].
      destruct (onmessage sampleRate wsOpen s d n) as [s1 o1].
      specialize (IH s1 B).
      destruct (run sampleRate wsOpen s1 msgs) as [s2 o2]. exact IH. }
    apply G. cbn. unfold maxPreRoll. lia. }
  split; [exact H | now apply onmessage_bounds].
Qed.

End VADMore.

(** ** The encoder: order, saturation, dead zone *)

Module PCMMore.
Import JS JSFacts PCM PCMFacts.

Lemma truncate_mono (x y : Q) : x <= y -> (truncate x <= truncate y)%Z.
Proof.
  intro H.
  destruct (Qlt_le_dec x 0) as [Hx | Hx]; destruct (Qlt_le_dec y 0) as [Hy | Hy].
  - unfold truncate.
    assert (Ex : Qle_bool 0 x = false) by now apply Qle_bool_false.
    assert (Ey : Qle_bool 0 y = false) by now apply Qle_bool_false.
    rewrite Ex, Ey. now apply Qceiling_resp_le.
  - destruct (truncate_neg x Hx) as [A _].
    destruct (truncate_nonneg y Hy) as [B _]. lia.
  - lra.
  - unfold truncate.
    assert (Ex : Qle_bool 0 x = true) by now apply Qle_bool_iff.
    assert (Ey : Qle_bool 0 y = true) by now apply Qle_bool_iff.
    rewrite Ex, Ey. now apply Qfloor_resp_le.
Qed.

Lemma clamp_mono (x y : Q) : x <= y -> clamp x <= clamp y.
Proof.
  intro H. unfold clamp, Math_max, Math_min.
  destruct (Qle_bool 1 x) eqn:A; destruct (Qle_bool 1 y) eqn:B;
    try apply Qle_bool_iff in A; try apply Qle_bool_iff in B;
    try apply Qle_bool_false in A; try apply Qle_bool_false in B;
    repeat match goal with
           | |- context [Qle_bool ?a ?b] =>
               let E := fresh "E" in
               destruct (Qle_bool a b) eqn:E;
               [apply Qle_bool_iff in E | apply Qle_bool_false in E]
           end; lra.
Qed.

Lemma scaled_mono (x y : Q) : x <= y -> scaled x <= scaled y.
Proof.
  intro H. pose proof (clamp_mono x y H) as C. unfold scaled.
  destruct (Qlt_bool (clamp x) 0) eqn:A; destruct (Qlt_bool (clamp y) 0) eqn:B;
    try apply Qlt_bool_iff in A; try apply Qlt_bool_iff in B;
    try apply Qlt_bool_false in A; try apply Qlt_bool_false in B; lra.
Qed.

Lemma code_le (s s' : Q) :
  s <= s' -> (truncate (scaled s) <= truncate (scaled s'))%Z.
Proof. intro H. apply truncate_mono. now apply scaled_mono. Qed.

Lemma convertSample_le (s s' : Q) :
  s <= s' -> (convertSample s <= convertSample s')%Z.
Proof.
  intro H.
  destruct (convertSample_truncate s) as [E _].
  destruct (convertSample_truncate s') as [E' _].
  rewrite E, E'. now apply code_le.
Qed.

(** X6: the encoder keeps the order of the samples and of the frames'
    entries: a larger sample never gets a smaller code, whether or not the
    samples lie in [-1, 1]. *)
Theorem convertSample_monotone (s s' : Q) :
  s <= s' ->
  (convertSample s <= convertSample s')%Z
  /\ (-32768 <= convertSample s)%Z /\ (convertSample s' <= 32767)%Z.
Proof.
  intro H.
  destruct (convertSample_truncate s) as [E R].
  destruct (convertSample_truncate s') as [E' R'].
  split; [| lia].
  rewrite E, E'. now apply code_le.
Qed.

Lemma convertSample_monotone_witness :
  (convertSample (1 # 4) <= convertSample (1 # 2))%Z.
Proof. apply (convertSample_monotone (1 # 4) (1 # 2)). discriminate. Defined.

(** X7: samples outside [-1, 1] saturate and do not wrap around: every
    sample of 1 or more is encoded as 32767 and every sample of -1 or less
    as -32768. *)
Theorem convertSample_saturates (s : Q) :
  (1 <= s -> convertSample s = 32767%Z)
  /\ (s <= -1 -> convertSample s = (-32768)%Z).
Proof.
  destruct (convertSample_truncate s) as [_ R]. split; intro H.
  - pose proof (convertSample_le 1 s H) as M.
    change (convertSample 1) with 32767%Z in M. lia.
  - pose proof (convertSample_le s (-1) H) as M.
    change (convertSample (-1)) with (-32768)%Z in M. lia.
Qed.

(** X8: the samples encoded as 0 are exactly those strictly between
    -1/32768 and 1/32767: truncation gives the code 0 a zone twice as wide
    as that of any other code. *)
Theorem convertSample_zero_zone (s : Q) :
  convertSample s = 0%Z <-> - (1 # 32768) < s < 1 # 32767.
Proof.
  split.
  - intro Z0. split.
    + apply Qnot_le_lt. intro C.
      pose proof (convertSample_le s (- (1 # 32768)) C) as M.
      change (convertSample (- (1 # 32768))) with (-1)%Z in M. lia.
    + apply Qnot_le_lt. intro C.
      pose proof (convertSample_le (1 # 32767) s C) as M.
      change (convertSample (1 # 32767)) with 1%Z in M. lia.
  - intros [Hlo Hhi].
    destruct (convertSample_truncate s) as [E _]. rewrite E.
    assert (C : clamp s == s) by (apply clamp_inside; lra).
    unfold scaled.
    destruct (Qlt_bool (clamp s) 0) eqn:B.
    + apply Qlt_bool_iff in B.
      assert (N : clamp s * 32768 < 0) by lra.
      destruct (truncate_neg _ N) as [Hz [Ha Hb]].
      assert (G : inject_Z (-1) < inject_Z (truncate (clamp s * 32768))).
      { change (inject_Z (-1)) with (- (1))%Q. lra. }
      rewrite <- Zlt_Qlt in G. lia.
    + apply Qlt_bool_false in B.
      assert (N : 0 <= clamp s * 32767) by lra.
      destruct (truncate_nonneg _ N) as [Hz [Ha Hb]].
      assert (G : inject_Z (truncate (clamp s * 32767)) < inject_Z 1).
      { change (inject_Z 1) with 1%Q. lra. }
      rewrite <- Zlt_Qlt in G. lia.
Qed.

End PCMMore.

(** ** The resampler: range; the fallback path *)

Module ResamplerMore.
Import JS JSFacts Resampler ResamplerFacts.

Lemma Forall_firstn_keep {A} (P : A -> Prop) (n : nat) (l : list A) :
  Forall P l -> Forall P (firstn n l).
Proof.
  intro H. revert n. induction H as [| x l Hx _ IH]; intro n.
  - rewrite firstn_nil. constructor.
  - destruct n; cbn; constructor; auto.
Qed.

Lemma Forall_skipn_keep {A} (P : A -> Prop) (n : nat) (l : list A) :
  Forall P l -> Forall P (skipn n l).
Proof.
  intro H. revert n. induction H as [| x l Hx Hl IH]; intro n.
  - rewrite skipn_nil. constructor.
  - destruct n; cbn; [constructor |]; auto.
Qed.

Lemma sum_in_range (lo hi : Q) (l : list Q) :
  Forall (fun x => lo <= x <= hi) l ->
  inject_Z (Z.of_nat (length l)) * lo <= fold_right Qplus 0 l
  /\ fold_right Qplus 0 l <= inject_Z (Z.of_nat (length l)) * hi.
Proof.
  induction 1 as [| x l [Hx1 Hx2] _ [IH1 IH2]].
  - cbn [length fold_right]. change (inject_Z (Z.of_nat 0)) with 0.
    split; lra.
  - cbn [length fold_right]. rewrite Nat2Z.inj_succ. unfold Z.succ.
    rewrite inject_Z_plus. change (inject_Z 1) with 1. split; lra.
Qed.

Lemma mean_in_range (lo hi : Q) (l : list Q) :
  lo <= 0 <= hi ->
  Forall (fun x => lo <= x <= hi) l -> lo <= mean l <= hi.
Proof.
  intros Z0 H. destruct l as [| y l]; [exact Z0 |].
  destruct (sum_in_range lo hi (y :: l) H) as [S1 S2].
  unfold mean.
  assert (P : 0 < inject_Z (Z.of_nat (length (y :: l)))).
  { change 0 with (inject_Z 0). rewrite <- Zlt_Qlt. cbn [length]. lia. }
  split.
  - apply Qle_shift_div_l; [exact P | lra].
  - apply Qle_shift_div_r; [exact P | lra].
Qed.

Lemma fill_in_range (lo hi : Q) (buffer : list Q) (r : Q) (n : nat) :
  lo <= 0 <= hi ->
  Forall (fun x => lo <= x <= hi) buffer ->
  forall offsetResult offsetBuffer,
    Forall (fun x => lo <= x <= hi) (fill n buffer r offsetResult offsetBuffer).
Proof.
  intros Z0 H. induction n as [| n IH]; intros oR oB; [constructor |].
  cbn [fill].
  pose proof (block_value (skipn (Z.to_nat oB) buffer) oB
                          (Math_round (inject_Z (oR + 1) * r))) as V.
  destruct (block_loop _ _ _ _ _) as [accum count].
  constructor; [| apply IH].
  rewrite V. apply mean_in_range; [exact Z0 |].
  now apply Forall_firstn_keep, Forall_skipn_keep.
Qed.

(** X9: resampling does not leave the range of its input: when every
    input sample lies in [lo, hi], with [lo <= 0 <= hi], so does every
    output sample, for any two rates; samples in [-1, 1] stay in
    [-1, 1]. *)
Theorem downsampleBuffer_stays_in_range
        (lo hi : Q) (buffer : list Q) (srcRate dstRate : Q) :
  lo <= 0 <= hi ->
  Forall (fun x => lo <= x <= hi) buffer ->
  Forall (fun x => lo <= x <= hi) (downsampleBuffer buffer srcRate dstRate).
Proof.
  intros Z0 H. unfold downsampleBuffer.
  destruct (Qeq_bool dstRate srcRate); [exact H | now apply fill_in_range].
Qed.

Lemma downsampleBuffer_stays_in_range_witness :
  Forall (fun x => -1 <= x <= 1)
         (downsampleBuffer [1; -1; 1 # 2; 0; 1; 1; 1] 48000 16000).
Proof.
  apply (downsampleBuffer_stays_in_range (-1) 1
           [1; -1; 1 # 2; 0; 1; 1; 1] 48000 16000).
  - split; discriminate.
  - repeat constructor; discriminate.
Defined.

Lemma onaudioprocess_spec (sampleRate : Q) (wsOpen : bool) (d : list Q) :
  Fallback.onaudioprocess sampleRate wsOpen d
  = if wsOpen
       && negb (length (downsampleBuffer d sampleRate 16000) =? 0)%nat
    then [VAD.encoded sampleRate d] else [].
Proof.
  unfold Fallback.onaudioprocess, VAD.encoded, VAD.dstRate,
    PCM.convertFloat32ToInt16.
  rewrite length_map.
  destruct wsOpen; [| reflexivity]. cbn [andb].
  destruct (length (downsampleBuffer d sampleRate 16000)); reflexivity.
Qed.

(** X11: the ScriptProcessor fallback does not gate by voice activity: with
    the socket open it sends every frame that is not empty after resampling
    exactly once, in order, silent frames too; with the socket not open it
    sends nothing. *)
Theorem fallback_sends_every_frame_once (sampleRate : Q) (inputs : list (list Q)) :
  Fallback.process sampleRate true inputs
  = map (VAD.encoded sampleRate)
        (filter (fun d => negb (length (downsampleBuffer d sampleRate 16000) =? 0)%nat)
                inputs)
  /\ Fallback.process sampleRate false inputs = [].
Proof.
  unfold Fallback.process. split.
  - induction inputs as [| d inputs IH]; [reflexivity |].
    cbn [flat_map filter]. rewrite IH, onaudioprocess_spec. cbn [andb].
    now destruct (negb _).
  - induction inputs as [| d inputs IH]; [reflexivity |].
    cbn [flat_map]. now rewrite IH, onaudioprocess_spec.
Qed.

End ResamplerMore.

(** ** The transport: callbacks, the attempt counter, flapping, disconnect *)

Module TransportMore.
Import Transport TransportRuns TransportFacts.

Local Open Scope string_scope.

Lemma callOnError_carries (p : Provider) (msg : string) :
  msg <> "" ->
  (length (callOnError p msg) <= 1)%nat
  /\ Forall carriesText (callOnError p msg).
Proof.
  intro H. unfold callOnError. destruct (onError p); cbn; split; auto.
Qed.

(** X12: one message makes at most one callback call, and a callback is
    never called with an empty text: the transcript sink gets a text that is
    not empty, the error callback the message of the event or, when that is
    missing or empty, a fixed text.  This holds for both providers and for
    every message. *)
Theorem callbacks_get_nonempty_text
        (p : Provider) (m : TranscriptEvent) (am : AssemblyAI.AssemblyAITranscript) :
  (length (handleMessage p m) <= 1)%nat
  /\ Forall carriesText (handleMessage p m)
  /\ (length (AssemblyAI.handleMessage p am) <= 1)%nat
  /\ Forall carriesText (AssemblyAI.handleMessage p am).
Proof.
  assert (D : forall (o : option string) (d : string),
             d <> "" ->
             match o with
             | Some msg => if truthy_string o then msg else d
             | None => d
             end <> "").
  { intros [[| c msg] |] d Hd; cbn; auto. discriminate. }
  assert (T : forall (o : option string) (b : bool),
             (length match o with
                     | Some t => if truthy_string o && onTranscript p
                                 then [CallOnTranscript t b] else []
                     | None => []
                     end <= 1)%nat
             /\ Forall carriesText
                       match o with
                       | Some t => if truthy_string o && onTranscript p
                                   then [CallOnTranscript t b] else []
                       | None => []
                       end).
  { intros [[| c t] |] b; cbn; auto.
    destruct (onTranscript p); cbn; split; auto.
    repeat constructor. discriminate. }
  split; [| split; [| split]].
  - unfold handleMessage. destruct (type m); cbn; auto.
    + apply T.
    + apply callOnError_carries, D. discriminate.
  - unfold handleMessage. destruct (type m); cbn; auto.
    + apply T.
    + apply callOnError_carries, D. discriminate.
  - unfold AssemblyAI.handleMessage.
    destruct (AssemblyAI.message_type am); cbn; auto; try apply T.
    apply callOnError_carries, D. discriminate.
  - unfold AssemblyAI.handleMessage.
    destruct (AssemblyAI.message_type am); cbn; auto; try apply T.
    apply callOnError_carries, D. discriminate.
Qed.

Lemma backoff_range (n : Z) :
  (1 <= n <= 5)%Z -> (2000 <= backoff n <= 10000)%Z.
Proof.
  intro H. unfold backoff.
  assert (C : (n = 1 \/ n = 2 \/ n = 3 \/ n = 4 \/ n = 5)%Z) by lia.
  destruct C as [-> | [-> | [-> | [-> | ->]]]]; cbn; lia.
Qed.

Lemma handle_counter (p : Provider) (ev : Event) :
  (0 <= reconnectAttempts p <= 5)%Z ->
  (0 <= reconnectAttempts (fst (handle p ev)) <= 5)%Z
  /\ Forall (fun d => (2000 <= d <= 10000)%Z) (timeouts (snd (handle p ev))).
Proof.
  intro H. destruct ev; cbn [handle fst snd].
  - cbn. split; [lia | constructor].
  - split; [exact H |]. unfold handleMessage, callOnError.
    destruct (type m); cbn; try constructor.
    + destruct (text m); [destruct (_ && _) |]; constructor.
    + destruct (onError p); constructor.
  - split; [exact H |]. unfold callOnError. destruct (onError p); constructor.
  - unfold attemptReconnect, maxReconnectAttempts.
    destruct (Z.ltb_spec (reconnectAttempts p) 5).
    + cbn. split; [lia |]. repeat constructor; apply backoff_range; lia.
    + cbn. split; [exact H |]. unfold callOnError.
      destruct (onError p); constructor.
  - cbn. split; [exact H | constructor].
Qed.

Lemma timeouts_app (a b : list Effect) :
  timeouts (a ++ b)%list = (timeouts a ++ timeouts b)%list.
Proof. unfold timeouts. apply flat_map_app. Qed.

(** X13: whatever events arrive in whatever order, from the constructed
    provider on, the attempt counter stays between 0 and 5 and every
    reconnect timer is set to at least 2000 ms and at most 10000 ms. *)
Theorem counter_and_delays_bounded (events : list Event) :
  let r := handleAll newProvider events in
  (0 <= reconnectAttempts (fst r) <= 5)%Z
  /\ Forall (fun d => (2000 <= d <= 10000)%Z) (timeouts (snd r)).
Proof.
  assert (G : forall p, (0 <= reconnectAttempts p <= 5)%Z ->
                        (0 <= reconnectAttempts (fst (handleAll p events)) <= 5)%Z
                        /\ Forall (fun d => (2000 <= d <= 10000)%Z)
                                  (timeouts (snd (handleAll p events)))).
  { induction events as [| ev events IH]; intros p H.
    - cbn. split; [exact H | constructor].
    - cbn [handleAll].
      destruct (handle_counter p ev H) as [H1 H2].
      destruct (handle p ev) as [p1 effs]. cbn [fst snd] in H1, H2.
      destruct (IH p1 H1) as [I1 I2].
      destruct (handleAll p1 events) as [p2 effs']. cbn [fst snd] in *.
      split; [exact I1 |]. rewrite timeouts_app. now apply Forall_app. }
  apply G. cbn. lia.
Qed.

Lemma handleAll_app (a b : list Event) :
  forall p,
    handleAll p (a ++ b)%list
    = let '(p1, effs) := handleAll p a in
      let '(p2, effs') := handleAll p1 b in
      (p2, (effs ++ effs')%list).
Proof.
  induction a as [| ev a IH]; intro p.
  - cbn. now destruct (handleAll p b).
  - cbn [app handleAll]. destruct (handle p ev) as [p1 e1]. rewrite IH.
    destruct (handleAll p1 a) as [p2 e2].
    destruct (handleAll p2 b) as [p3 e3]. now rewrite app_assoc.
Qed.

Lemma one_cycle (listening hasSink hasOnError : bool) :
  handleAll (connected listening hasSink hasOnError) [Close; Timeout; Open]
  = (connected listening hasSink hasOnError, [SetTimeout 2000; NewWebSocket]).
Proof. destruct listening, hasSink, hasOnError; reflexivity. Qed.

(** X14: a connection that opens and is closed again, over and over, is
    reconnected for ever: each [close] finds the counter at 0, so every
    reconnect is scheduled after 2000 ms and the provider never gives
    up, however many times this happens. *)
Theorem flapping_connection_never_gives_up
        (listening hasSink hasOnError : bool) (n : nat) :
  handleAll (connected listening hasSink hasOnError)
            (concat (repeat [Close; Timeout; Open] n))
  = (connected listening hasSink hasOnError,
     concat (repeat [SetTimeout 2000; NewWebSocket] n)).
Proof.
  induction n as [| n IH]; [reflexivity |].
  cbn [repeat concat]. rewrite handleAll_app, one_cycle, IH. reflexivity.
Qed.

(** X15: [disconnect] keeps the two callbacks, so a transcript that arrives
    on the closing socket after [disconnect] is still handed to the sink;
    and a second [disconnect] changes nothing and closes nothing. *)
Theorem disconnect_keeps_the_sink
        (p : Provider) (t : string) (f : bool) :
  onTranscript p = true -> t <> "" ->
  handle (fst (disconnect p))
         (Message (mkEvent Transcript (Some t) (Some f) None))
  = (fst (disconnect p), [CallOnTranscript t f])
  /\ disconnect (fst (disconnect p)) = (fst (disconnect p), []).
Proof.
  intros Hs Ht. split.
  - cbn [handle disconnect fst]. f_equal. unfold handleMessage.
    cbn [type text isFinal onTranscript truthy_bool]. rewrite Hs.
    destruct t as [| c t]; [congruence |]. now destruct f.
  - reflexivity.
Qed.

Lemma disconnect_keeps_the_sink_witness :
  handle (fst (disconnect (connected true true true)))
         (Message (mkEvent Transcript (Some "ok") (Some true) None))
  = (fst (disconnect (connected true true true)), [CallOnTranscript "ok" true]).
Proof.
  apply (disconnect_keeps_the_sink (connected true true true) "ok" true).
  - reflexivity.
  - discriminate.
Defined.

Lemma aai_pump_more_fuel (tokenOk connects : bool) (fuel : nat) :
  forall k p pending p' effs,
    AssemblyAITransport.pump fuel tokenOk connects p pending = (p', [], effs) ->
    AssemblyAITransport.pump (fuel + k) tokenOk connects p pending = (p', [], effs).
Proof.
  induction fuel as [| fuel IH]; intros k p pending p' effs H.
  - cbn in H. injection H as -> -> <-. destruct k; reflexivity.
  - destruct pending as [| ev pending]; [exact H |].
    cbn [AssemblyAITransport.pump Nat.add] in *.
    destruct (AssemblyAITransport.handle tokenOk p ev) as [p1 effs1].
    destruct (AssemblyAITransport.pump fuel tokenOk connects p1 _)
      as [[p2 rest] effs2] eqn:E.
    injection H as -> -> <-.
    now rewrite (IH k _ _ _ _ E).
Qed.

(** X16: the AssemblyAI provider stops reconnecting without a word when
    the key validation fails.  After the socket of a connected provider is
    closed, one reconnect is scheduled after 2000 ms; when the validation
    request of that attempt fails, no socket is made, no further attempt
    is scheduled and the error callback is not called: the event loop
    comes to rest with the counter at 1. *)
Theorem assemblyai_reconnect_ends_when_validation_fails
        (listening hasSink hasOnError connects : bool) (k : nat) :
  AssemblyAITransport.pump (2 + k) false connects
                           (connected listening hasSink hasOnError)
                           [AssemblyAITransport.AaiClose]
  = (mkProvider true listening hasSink hasOnError 1, [], [SetTimeout 2000]).
Proof.
  apply (aai_pump_more_fuel false connects 2 k).
  destruct listening, hasSink, hasOnError, connects; reflexivity.
Qed.

End TransportMore.

(** ** The speaker tracker: the window, the profiles, the first decision *)

Module TrackerMore.
Import JS JSFacts VoiceAnalyzer VoiceAnalyzerFacts VADFacts TrackerSpec.

(** A push followed by the conditional shift keeps the last [n] entries. *)
Lemma window_push {A} (n : nat) (l rest : list A) (x : A) :
  (length l <= n)%nat ->
  slice_last n ((if (n <? length (l ++ [x]))%nat then shift (l ++ [x])
                 else l ++ [x]) ++ rest)
  = slice_last n (l ++ x :: rest).
Proof.
  intro H.
  replace (l ++ x :: rest) with ((l ++ [x]) ++ rest) by now rewrite <- app_assoc.
  destruct (Nat.ltb_spec n (length (l ++ [x]))) as [L | L]; [| reflexivity].
  unfold shift. destruct (l ++ [x]) as [| h t] eqn:E; [reflexivity |].
  cbn [tl]. assert (Ht : length t = n).
  { assert (E' : length (l ++ [x]) = S (length t)) by now rewrite E.
    rewrite length_app in E'. cbn [length] in *. lia. }
  unfold slice_last. cbn [app length]. rewrite length_app, Ht.
  replace (S (n + length rest) - n)%nat with (S (n + length rest - n)) by lia.
  reflexivity.
Qed.

Lemma feed_cons (a : Analyzer) (f : Features) (now : Z)
      (frames : list (Features * Z)) :
  feed a ((f, now) :: frames) = feed (fst (analyzeFeatures a f now)) frames.
Proof. reflexivity. Qed.

Lemma analyzeFeatures_histories (a : Analyzer) (f : Features) (now : Z) :
  pitchHistory (fst (analyzeFeatures a f now)) = pitchHistory (pushHistory a f)
  /\ energyHistory (fst (analyzeFeatures a f now)) = energyHistory (pushHistory a f)
  /\ spectralHistory (fst (analyzeFeatures a f now))
     = spectralHistory (pushHistory a f).
Proof.
  unfold analyzeFeatures.
  destruct (10 <? length (pitchHistory (pushHistory a f)))%nat.
  - destruct (classify_spec (pushHistory a f) f now) as [E1 [E2 [E3 _]]]. auto.
  - auto.
Qed.

Lemma feed_windows (frames : list (Features * Z)) :
  forall a,
    aligned a ->
    pitchHistory (feed a frames)
    = slice_last 50 (pitchHistory a ++ map (fun m => pitch (fst m)) frames)
    /\ energyHistory (feed a frames)
       = slice_last 50 (energyHistory a ++ map (fun m => energy (fst m)) frames)
    /\ spectralHistory (feed a frames)
       = slice_last 50 (spectralHistory a ++ map (fun m => centroid (fst m)) frames).
Proof.
  induction frames as [| [f now] frames IH]; intros a H.
  - destruct H as [H1 [H2 [H3 _]]]. unfold analysisWindowSize in H3.
    cbn [feed fold_left map]. rewrite !app_nil_r.
    rewrite !slice_last_short by lia. auto.
  - rewrite feed_cons.
    destruct (analyzeFeatures_aligned a f now H) as [H' _].
    destruct (IH _ H') as [I1 [I2 I3]]. rewrite I1, I2, I3.
    destruct (analyzeFeatures_histories a f now) as [E1 [E2 E3]].
    rewrite E1, E2, E3. clear I1 I2 I3 E1 E2 E3 H'.
    destruct H as [H1 [H2 [H3 _]]]. unfold analysisWindowSize in H3.
    unfold pushHistory. cbn [map fst].
    assert (L2 : length (energyHistory a ++ [energy f])
                 = length (pitchHistory a ++ [pitch f]))
      by (rewrite !length_app; cbn [length]; lia).
    assert (L3 : length (spectralHistory a ++ [centroid f])
                 = length (pitchHistory a ++ [pitch f]))
      by (rewrite !length_app; cbn [length]; lia).
    pose proof (window_push 50 (pitchHistory a)
                  (map (fun m => pitch (fst m)) frames) (pitch f) H3) as W1.
    pose proof (window_push 50 (energyHistory a)
                  (map (fun m => energy (fst m)) frames) (energy f)
                  ltac:(lia)) as W2.
    pose proof (window_push 50 (spectralHistory a)
                  (map (fun m => centroid (fst m)) frames) (centroid f)
                  ltac:(lia)) as W3.
    rewrite L2 in W2. rewrite L3 in W3. unfold analysisWindowSize.
    destruct (50 <? length (pitchHistory a ++ [pitch f]))%nat;
      cbn [pitchHistory energyHistory spectralHistory]; auto.
Qed.

(** X17: the three histories are rolling windows: after any frames fed to
    an analyzer that was just reset (or constructed, which leaves it in
    the same state), each history holds the values of the last 50 frames
    (of all frames while there are fewer), oldest first. *)
Theorem histories_hold_last_fifty_frames
        (a : Analyzer) (now : Z) (frames : list (Features * Z)) :
  let a0 := reset a now in
  create (sampleRate a) now = a0
  /\ pitchHistory (feed a0 frames)
     = slice_last 50 (map (fun m => pitch (fst m)) frames)
  /\ energyHistory (feed a0 frames)
     = slice_last 50 (map (fun m => energy (fst m)) frames)
  /\ spectralHistory (feed a0 frames)
     = slice_last 50 (map (fun m => centroid (fst m)) frames).
Proof.
  intro a0. split; [reflexivity |].
  exact (feed_windows frames a0 (reset_aligned a now)).
Qed.

(** X18: the profiles learn only at a change of speaker.  A frame that
    brings no change event leaves both profiles and the current speaker as
    they were, however well it matches; a frame that brings one has more than
    ten frames of history behind it, names a speaker other than the one
    before, carries a confidence above 0.7 and the frame's own features and
    time, and leaves the profile of the other speaker untouched. *)
Theorem profiles_change_only_with_an_event
        (a : Analyzer) (f : Features) (now : Z) :
  let a' := fst (analyzeFeatures a f now) in
  match changeEvent (snd (analyzeFeatures a f now)) with
  | None =>
      profile0 a' = profile0 a /\ profile1 a' = profile1 a
      /\ currentSpeaker a' = currentSpeaker a
  | Some ev =>
      (10 < length (pitchHistory a'))%nat
      /\ ev_newSpeaker ev = currentSpeaker a'
      /\ currentSpeaker a' <> currentSpeaker a
      /\ speakerChangeThreshold < ev_confidence ev
      /\ ev_features ev = f /\ ev_timestamp ev = now
      /\ (if (currentSpeaker a' =? 0)%Z then profile1 a' = profile1 a
          else profile0 a' = profile0 a)
  end.
Proof.
  intro a'. subst a'. unfold analyzeFeatures.
  pose proof (pushHistory_speaker a f) as S.
  assert (P : profile0 (pushHistory a f) = profile0 a
              /\ profile1 (pushHistory a f) = profile1 a).
  { unfold pushHistory. now destruct (_ <? _)%nat. }
  destruct P as [P0 P1].
  destruct (Nat.ltb_spec 10 (length (pitchHistory (pushHistory a f)))) as [G | G].
  - unfold classify.
    destruct (detectSpeakerChange (pushHistory a f) f) as [newSpeaker confidence].
    destruct (negb (newSpeaker =? currentSpeaker (pushHistory a f))%Z) eqn:N;
      cbn [andb].
    + destruct (Qlt_bool speakerChangeThreshold confidence) eqn:C.
      * apply Qlt_bool_iff in C. apply negb_true_iff in N.
        apply Z.eqb_neq in N. rewrite S in N.
        unfold updateSpeakerProfile, setCurrentSpeaker.
        destruct (newSpeaker =? 0)%Z eqn:Z0;
          cbn [fst snd changeEvent pitchHistory currentSpeaker profile0 profile1
                 ev_newSpeaker ev_confidence ev_features ev_timestamp];
          rewrite Z0; repeat split; auto.
      * cbn. auto.
    + cbn. auto.
  - cbn. auto.
Qed.

(** *** Non-negative features *)

Lemma sq_nonneg (x : Q) : 0 <= x * x.
Proof.
  destruct (Qlt_le_dec x 0) as [N | P].
  - assert (E : x * x == (- x) * (- x)) by ring.
    rewrite E. apply Qmult_le_0_compat; lra.
  - now apply Qmult_le_0_compat.
Qed.

Lemma sq_fold_nonneg (m : Q) (l : list Q) :
  forall acc, 0 <= acc ->
              0 <= fold_left (fun acc p => acc + (p - m) * (p - m)) l acc.
Proof.
  induction l as [| p l IH]; intros acc H; [exact H |].
  cbn [fold_left]. apply IH.
  pose proof (sq_nonneg (p - m)) as S. lra.
Qed.

Lemma variance_nonneg (l : list Q) : 0 <= variance l.
Proof.
  unfold variance, Qdiv. apply Qmult_le_0_compat.
  - apply sq_fold_nonneg. lra.
  - apply Qinv_le_0_compat. change 0 with (inject_Z 0).
    rewrite <- Zle_Qle. lia.
Qed.

Lemma updated_nonneg (a : Analyzer) (p : VoiceProfile) (f : Features) (now : Z) :
  nonnegProfile p -> nonnegFeatures f -> nonnegProfile (updated a p f now).
Proof.
  intros [P1 [P2 [P3 P4]]] [F1 [F2 F3]].
  unfold nonnegProfile, updated, alpha.
  cbn [avgPitch pitchStdDevSq avgEnergy spectralCentroid].
  repeat split; try lra.
  destruct (0 <? _)%nat; [apply variance_nonneg | exact P2].
Qed.

Lemma quotient_nonneg (x d : Q) : 0 < d -> 0 <= Math_abs x / d.
Proof.
  intro H. apply Qle_shift_div_l; [exact H |].
  pose proof (Math_abs_nonneg x). lra.
Qed.

Lemma calculateDistance_nonneg (f : Features) (p : VoiceProfile) :
  nonnegProfile p -> 0 <= calculateDistance f p.
Proof.
  intros [P1 [_ [P3 P4]]]. unfold calculateDistance.
  assert (A : 0 <= (if Qlt_bool 0 (avgPitch p)
                    then Math_abs (pitch f - avgPitch p) / avgPitch p else 0)).
  { destruct (Qlt_bool 0 (avgPitch p)) eqn:E; [| lra].
    apply Qlt_bool_iff in E. now apply quotient_nonneg. }
  assert (B : 0 <= Math_abs (energy f - avgEnergy p) / (avgEnergy p + (1 # 100)))
    by (apply quotient_nonneg; lra).
  assert (C : 0 <= (if Qlt_bool 0 (spectralCentroid p)
                    then Math_abs (centroid f - spectralCentroid p)
                         / spectralCentroid p else 0)).
  { destruct (Qlt_bool 0 (spectralCentroid p)) eqn:E; [| lra].
    apply Qlt_bool_iff in E. now apply quotient_nonneg. }
  lra.
Qed.

Lemma decide_unit (d0 d1 : Q) :
  0 <= d0 -> 0 <= d1 -> 0 <= snd (decide d0 d1) <= 1.
Proof.
  intros H0 H1. destruct (Qlt_le_dec d1 d0) as [L | L].
  - rewrite decide_confidence_ge by lra. apply ratio_unit; lra.
  - destruct (Qlt_le_dec 0 d1) as [P | P].
    + rewrite decide_confidence_le by lra. apply ratio_unit; lra.
    + rewrite decide_confidence_zero by lra. split; discriminate.
Qed.

Lemma analyzeFeatures_nonneg (a : Analyzer) (f : Features) (now : Z) :
  nonnegProfile (profile0 a) -> nonnegProfile (profile1 a) -> nonnegFeatures f ->
  nonnegProfile (profile0 (fst (analyzeFeatures a f now)))
  /\ nonnegProfile (profile1 (fst (analyzeFeatures a f now))).
Proof.
  intros N0 N1 F. unfold analyzeFeatures.
  assert (P : profile0 (pushHistory a f) = profile0 a
              /\ profile1 (pushHistory a f) = profile1 a).
  { unfold pushHistory. now destruct (_ <? _)%nat. }
  destruct P as [P0 P1].
  destruct (10 <? length (pitchHistory (pushHistory a f)))%nat;
    [| cbn [fst]; rewrite P0, P1; auto].
  unfold classify.
  destruct (detectSpeakerChange (pushHistory a f) f) as [newSpeaker confidence].
  destruct (negb _ && Qlt_bool _ _); [| cbn [fst]; rewrite P0, P1; auto].
  unfold updateSpeakerProfile, setCurrentSpeaker.
  destruct (newSpeaker =? 0)%Z; cbn [fst profile0 profile1]; rewrite ?P0, ?P1;
    split; auto; apply updated_nonneg; auto.
Qed.

Lemma feed_nonneg (frames : list (Features * Z)) :
  forall a,
    nonnegProfile (profile0 a) -> nonnegProfile (profile1 a) ->
    Forall (fun m => nonnegFeatures (fst m)) frames ->
    nonnegProfile (profile0 (feed a frames))
    /\ nonnegProfile (profile1 (feed a frames)).
Proof.
  induction frames as [| [f now] frames IH]; intros a N0 N1 H; [now cbn |].
  inversion H as [| m l Hf H']; subst. cbn [fst] in Hf.
  rewrite feed_cons.
  destruct (analyzeFeatures_nonneg a f now N0 N1 Hf) as [M0 M1].
  now apply IH.
Qed.

Lemma zeroProfile_nonneg (now : Z) : nonnegProfile (zeroProfile now).
Proof. unfold nonnegProfile, zeroProfile. cbn. repeat split; lra. Qed.

(** X19: with features that are not negative, the tracker's numbers stay
    meaningful.  After any such frames fed to a new analyzer, the averages
    and the variance of both profiles are not negative, the distance of a
    frame to either profile is not negative, and the confidence of a
    change event lies above 0.7 and is at most 1. *)
Theorem confidence_of_an_event_in_unit_range
        (rate : Q) (t0 : Z) (frames : list (Features * Z))
        (f : Features) (now : Z) :
  Forall (fun m => nonnegFeatures (fst m)) frames ->
  nonnegFeatures f ->
  let a := feed (create rate t0) frames in
  nonnegProfile (profile0 a) /\ nonnegProfile (profile1 a)
  /\ 0 <= calculateDistance f (profile0 a)
  /\ 0 <= calculateDistance f (profile1 a)
  /\ match changeEvent (snd (analyzeFeatures a f now)) with
     | Some ev => 7 # 10 < ev_confidence ev <= 1
     | None => True
     end.
Proof.
  intros H F a.
  destruct (feed_nonneg frames (create rate t0)
                        (zeroProfile_nonneg t0) (zeroProfile_nonneg t0) H)
    as [N0 N1].
  fold a in N0, N1.
  pose proof (calculateDistance_nonneg f _ N0) as D0.
  pose proof (calculateDistance_nonneg f _ N1) as D1.
  repeat split; try apply N0; try apply N1; auto.
  unfold analyzeFeatures.
  assert (P : profile0 (pushHistory a f) = profile0 a
              /\ profile1 (pushHistory a f) = profile1 a).
  { unfold pushHistory. now destruct (_ <? _)%nat. }
  destruct P as [P0 P1].
  destruct (10 <? length (pitchHistory (pushHistory a f)))%nat; [| exact I].
  unfold classify, detectSpeakerChange. rewrite P0, P1.
  pose proof (decide_unit _ _ D0 D1) as U.
  destruct (decide _ _) as [newSpeaker confidence]. cbn [snd] in U.
  destruct (negb _); cbn [andb]; [| exact I].
  destruct (Qlt_bool speakerChangeThreshold confidence) eqn:C; [| exact I].
  apply Qlt_bool_iff in C. cbn. unfold speakerChangeThreshold in C.
  split; [exact C | apply U].
Qed.

Lemma confidence_of_an_event_in_unit_range_witness :
  0 <= calculateDistance (mkFeatures 150 1 1000)
                         (profile0 (feed (create 16000 0)
                                         [(mkFeatures 100 1 900, 1%Z)])).
Proof.
  apply (confidence_of_an_event_in_unit_range
           16000 0 [(mkFeatures 100 1 900, 1%Z)] (mkFeatures 150 1 1000) 2).
  - repeat constructor; discriminate.
  - repeat constructor; discriminate.
Defined.

(** *** The first decision *)

Lemma feed_first_frames (frames : list (Features * Z)) :
  forall a,
    (length (pitchHistory a) + length frames <= 10)%nat ->
    profile0 (feed a frames) = profile0 a
    /\ profile1 (feed a frames) = profile1 a
    /\ currentSpeaker (feed a frames) = currentSpeaker a
    /\ length (pitchHistory (feed a frames))
       = (length (pitchHistory a) + length frames)%nat.
Proof.
  induction frames as [| [f now] frames IH]; intros a H.
  - cbn. repeat split; auto.
  - cbn [length] in H. rewrite feed_cons. unfold analyzeFeatures.
    assert (L : length (pitchHistory (pushHistory a f))
                = S (length (pitchHistory a))).
    { rewrite pushHistory_length by (unfold analysisWindowSize; lia).
      unfold analysisWindowSize. lia. }
    destruct (Nat.ltb_spec 10 (length (pitchHistory (pushHistory a f))))
      as [G | G]; [lia |].
    cbn [fst].
    destruct (IH (pushHistory a f)) as [I0 [I1 [I2 I3]]]; [rewrite L; lia |].
    rewrite I0, I1, I2, I3, L, pushHistory_speaker. cbn [length].
    unfold pushHistory. destruct (_ <? _)%nat; cbn; repeat split; auto; lia.
Qed.

(** X20: the first decision of a new analyzer does not depend on the voice.
    Both profiles are still zero when the eleventh frame is classified, so
    its two distances are equal: if its energy is not zero the confidence is
    1 and the analyzer switches to speaker 1 with a change event, whatever
    the pitch and the centroid; if its energy is zero nothing changes. *)
Theorem eleventh_frame_switches_to_speaker_one
        (rate : Q) (t0 : Z) (frames : list (Features * Z))
        (f : Features) (now : Z) :
  length frames = 10%nat ->
  let r := snd (analyzeFeatures (feed (create rate t0) frames) f now) in
  (~ energy f == 0 ->
   speaker r = 1%Z
   /\ exists ev, changeEvent r = Some ev
                 /\ ev_newSpeaker ev = 1%Z /\ ev_confidence ev == 1)
  /\ (energy f == 0 -> r = mkResult 0 None).
Proof.
  intros L r. subst r.
  destruct (feed_first_frames frames (create rate t0)) as [P0 [P1 [S H]]];
    [cbn; lia |].
  set (a := feed (create rate t0) frames) in *.
  cbn [create pitchHistory profile0 profile1 currentSpeaker length Nat.add] in *.
  unfold analyzeFeatures.
  assert (Q0 : profile0 (pushHistory a f) = zeroProfile t0)
    by (rewrite <- P0; unfold pushHistory; now destruct (_ <? _)%nat).
  assert (Q1 : profile1 (pushHistory a f) = zeroProfile t0)
    by (rewrite <- P1; unfold pushHistory; now destruct (_ <? _)%nat).
  rewrite pushHistory_length by (rewrite H, L; unfold analysisWindowSize; lia).
  rewrite H, L. cbn [Nat.min analysisWindowSize Nat.ltb Nat.leb].
  unfold classify, detectSpeakerChange. rewrite Q0, Q1.
  rewrite pushHistory_speaker, S.
  set (d := calculateDistance f (zeroProfile t0)).
  assert (D : d == 25 * Math_abs (energy f - 0)).
  { subst d. unfold calculateDistance, zeroProfile.
    cbn [avgPitch avgEnergy spectralCentroid].
    change (Qlt_bool 0 0) with false. cbv iota. field. }
  assert (A : Math_abs (energy f - 0) == 0 <-> energy f == 0).
  { unfold Math_abs. destruct (Qle_bool 0 (energy f - 0)); split; intro; lra. }
  pose proof (Math_abs_nonneg (energy f - 0)) as N.
  unfold decide.
  assert (X : Qlt_bool d d = false) by (apply Qlt_bool_false; lra).
  rewrite X.
  assert (M : Math_max d d = d /\ Math_min d d = d)
    by (unfold Math_max, Math_min; now destruct (Qle_bool d d)).
  destruct M as [-> ->].
  split.
  - intro E.
    assert (Pd : 0 < d).
    { rewrite D. destruct (Qlt_le_dec 0 (Math_abs (energy f - 0))) as [G | G];
        [lra |]. exfalso. apply E, A. lra. }
    assert (T : Qlt_bool 0 d = true) by now apply Qlt_bool_iff.
    rewrite T.
    assert (R : d / d == 1) by (field; lra).
    assert (C : Qlt_bool speakerChangeThreshold (d / d) = true).
    { apply Qlt_bool_iff. rewrite R. reflexivity. }
    cbn [Z.eqb negb andb]. rewrite C.
    unfold updateSpeakerProfile, setCurrentSpeaker.
    cbn [Z.eqb fst snd speaker changeEvent currentSpeaker].
    split; [reflexivity |].
    eexists. split; [reflexivity |]. cbn. split; [reflexivity | exact R].
  - intro E.
    assert (Zd : Qlt_bool 0 d = false).
    { apply Qlt_bool_false. rewrite D. apply A in E. lra. }
    rewrite Zd. cbn [Z.eqb negb andb].
    change (Qlt_bool speakerChangeThreshold (1 # 2)) with false.
    reflexivity.
Qed.

Lemma eleventh_frame_switches_to_speaker_one_witness :
  speaker (snd (analyzeFeatures
                  (feed (create 16000 0) (repeat (mkFeatures 0 0 0, 1%Z) 10))
                  (mkFeatures 120 (1 # 10) 900) 11)) = 1%Z.
Proof.
  apply (eleventh_frame_switches_to_speaker_one
           16000 0 (repeat (mkFeatures 0 0 0, 1%Z) 10)
           (mkFeatures 120 (1 # 10) 900) 11).
  - reflexivity.
  - discriminate.
Defined.

End TrackerMore.

(** ** Pitch extraction *)

Module PitchFacts.
Import JS JSFacts Pitch.

Lemma nth_zero (l : list Q) :
  Forall (fun x => x == 0) l -> forall i, nth i l 0 == 0.
Proof.
  induction 1 as [| x l Hx _ IH]; intro i.
  - destruct i; reflexivity.
  - destruct i; cbn [nth]; [exact Hx | apply IH].
Qed.

Lemma products_zero (audioData : list Q) (lag : nat) (idx : list nat) :
  Forall (fun x => x == 0) audioData ->
  forall c, c == 0 ->
            fold_left (fun c i => c + nth i audioData 0 * nth (i + lag) audioData 0)
                      idx c == 0.
Proof.
  intro H. induction idx as [| i idx IH]; intros c Hc; [exact Hc |].
  cbn [fold_left]. apply IH.
  rewrite Hc, (nth_zero audioData H i). ring.
Qed.

Lemma correlation_zero (audioData : list Q) (lag : nat) :
  Forall (fun x => x == 0) audioData \/ (length audioData <= lag)%nat ->
  correlation audioData lag == 0.
Proof.
  intros [H | H]; unfold correlation.
  - rewrite (products_zero audioData lag _ H 0) by reflexivity.
    unfold Qdiv. ring.
  - replace (length audioData - lag)%nat with O by lia.
    cbn [seq fold_left]. unfold Qdiv. ring.
Qed.

Lemma fold_keeps_initial (audioData : list Q) (lags : list nat) :
  (forall lag, In lag lags -> correlation audioData lag == 0) ->
  fold_left (pitchStep audioData) lags (O, 0) = (O, 0).
Proof.
  induction lags as [| lag lags IH]; intro H; [reflexivity |].
  cbn [fold_left]. unfold pitchStep at 2. cbn [snd].
  assert (E : Qlt_bool 0 (correlation audioData lag) = false).
  { apply Qlt_bool_false. rewrite (H lag) by now left. discriminate. }
  rewrite E. apply IH. intros l Hl. apply H. now right.
Qed.

(** X21: a frame without signal has no pitch: for an all-zero frame, and
    for a frame too short to be compared with itself at the smallest lag
    (at most [floor(sampleRate / 400)] samples), [extractPitch] returns 0
    and divides by no lag. *)
Theorem silence_has_no_pitch (sampleRate : Q) (audioData : list Q) :
  Forall (fun x => x == 0) audioData
  \/ (length audioData <= minLag sampleRate)%nat ->
  extractPitch sampleRate audioData = 0.
Proof.
  intro H. unfold extractPitch, bestOf.
  rewrite fold_keeps_initial; [reflexivity |].
  intros lag Hl. apply in_seq in Hl. apply correlation_zero.
  destruct H as [H | H]; [now left | right; lia].
Qed.

Lemma silence_has_no_pitch_witness :
  extractPitch 16000 [0; 0; 0; 0] = 0.
Proof.
  apply (silence_has_no_pitch 16000 [0; 0; 0; 0]).
  left. repeat constructor; reflexivity.
Defined.

Lemma fold_lag_in_range (audioData : list Q) (lo hi : nat) (lags : list nat) :
  (forall lag, In lag lags -> (lo <= lag < hi)%nat) ->
  forall best,
    (best = (O, 0) \/ (lo <= fst best < hi)%nat) ->
    fold_left (pitchStep audioData) lags best = (O, 0)
    \/ (lo <= fst (fold_left (pitchStep audioData) lags best) < hi)%nat.
Proof.
  induction lags as [| lag lags IH]; intros H best Hb; [exact Hb |].
  cbn [fold_left]. apply IH; [intros l Hl; apply H; now right |].
  unfold pitchStep.
  destruct (Qlt_bool (snd best) (correlation audioData lag));
    [right; cbn [fst]; apply H; now left | exact Hb].
Qed.

(** X22: a pitch that is reported lies in the voice band: for a sample rate
    of 400 Hz or more, [extractPitch] returns either 0 or a frequency above
    80 Hz and at most [sampleRate / floor(sampleRate / 400)], which is
    400 Hz at 16 kHz. *)
Theorem pitch_is_zero_or_in_band (sampleRate : Q) (audioData : list Q) :
  400 <= sampleRate ->
  let p := extractPitch sampleRate audioData in
  p = 0
  \/ (80 < p /\ p <= sampleRate / inject_Z (Z.of_nat (minLag sampleRate))).
Proof.
  intros Hs p. subst p. unfold extractPitch.
  pose proof (fold_lag_in_range audioData (minLag sampleRate) (maxLag sampleRate)
                (seq (minLag sampleRate) (maxLag sampleRate - minLag sampleRate))
                ltac:(intros lag Hl; apply in_seq in Hl; lia)
                (O, 0) (or_introl eq_refl)) as R.
  fold (bestOf sampleRate audioData) in R.
  destruct (bestOf sampleRate audioData) as [bestLag bestCorrelation] eqn:B.
  destruct (Qlt_bool (1 # 10) bestCorrelation) eqn:V; [| now left].
  apply Qlt_bool_iff in V. right.
  destruct R as [E | [Lo Hi]].
  { injection E as _ E. rewrite E in V. discriminate. }
  cbn [fst] in Lo, Hi.
  assert (M1 : (1 <= Math_floor (sampleRate / 400))%Z).
  { change 1%Z with (Qfloor 1). apply Qfloor_resp_le.
    apply Qle_shift_div_l; [reflexivity | lra]. }
  assert (Lpos : (1 <= minLag sampleRate)%nat) by (unfold minLag; lia).
  assert (Pl : 0 < inject_Z (Z.of_nat bestLag)).
  { change 0 with (inject_Z 0). rewrite <- Zlt_Qlt. lia. }
  assert (Pm : 0 < inject_Z (Z.of_nat (minLag sampleRate))).
  { change 0 with (inject_Z 0). rewrite <- Zlt_Qlt. lia. }
  split.
  - apply Qlt_shift_div_l; [exact Pl |].
    assert (D : sampleRate / 80 == sampleRate * (1 # 80)) by reflexivity.
    assert (F : inject_Z (Math_floor (sampleRate / 80)) <= sampleRate * (1 # 80))
      by (rewrite <- D; apply Qfloor_le).
    assert (G : inject_Z (Z.of_nat bestLag) + 1
                <= inject_Z (Math_floor (sampleRate / 80))).
    { change 1 with (inject_Z 1). rewrite <- inject_Z_plus, <- Zle_Qle.
      unfold maxLag in Hi. lia. }
    lra.
  - apply Qle_shift_div_r; [exact Pl |].
    assert (E : sampleRate
                == sampleRate / inject_Z (Z.of_nat (minLag sampleRate))
                   * inject_Z (Z.of_nat (minLag sampleRate))) by (field; lra).
    rewrite E at 1. apply Qmult_le_l.
    + apply Qlt_shift_div_l; [exact Pm | lra].
    + rewrite <- Zle_Qle. lia.
Qed.

Lemma pitch_is_zero_or_in_band_witness :
  extractPitch 16000 [1; 0; 1; 0] = 0
  \/ (80 < extractPitch 16000 [1; 0; 1; 0]
      /\ extractPitch 16000 [1; 0; 1; 0]
         <= 16000 / inject_Z (Z.of_nat (minLag 16000))).
Proof.
  apply (pitch_is_zero_or_in_band 16000 [1; 0; 1; 0]). discriminate.
Defined.

End PitchFacts.

(** ** From Deepgram's messages to the transcript on screen *)

Module PipelineFacts.
Import Transport Relay Hook.

Local Open Scope string_scope.

(** X23: the client never drops what the relay sends.  The relay sends an
    event only for a [Results] message with a transcript that is not empty,
    and for each such event the provider calls a registered sink exactly
    once, with that transcript and with the flag true exactly when
    [is_final] is the boolean true; for every other message nothing is sent
    and nothing is called. *)
Theorem relayed_events_reach_the_sink (p : Provider) (m : DeepgramMessage) :
  match relay m with
  | Some ev =>
      dg_type m = Results
      /\ dg_transcript m = Some (transcriptOf m)
      /\ transcriptOf m <> ""
      /\ handleMessage p ev
         = (if onTranscript p
            then [CallOnTranscript (transcriptOf m) (isFinalOf m)] else [])
  | None =>
      dg_type m <> Results \/ dg_transcript m = None \/ dg_transcript m = Some ""
  end.
Proof.
  unfold relay, transcriptOf.
  destruct m as [ty tr fin]. cbn [dg_type dg_transcript].
  destruct ty; try (left; discriminate).
  destruct tr as [[| c t] |]; cbn; auto.
  repeat split; try discriminate.
  unfold handleMessage, isFinalOf. cbn.
  destruct (onTranscript p); [| reflexivity].
  now destruct fin as [[|] |].
Qed.

Lemma relay_handled (p : Provider) (m : DeepgramMessage) :
  match relay m with
  | Some ev =>
      handleMessage p ev
      = (if onTranscript p
         then [CallOnTranscript (transcriptOf m) (isFinalOf m)] else [])
  | None => True
  end.
Proof.
  unfold relay, transcriptOf.
  destruct m as [ty tr fin]. cbn [dg_type dg_transcript].
  destruct ty; try exact I.
  destruct tr as [[| c t] |]; cbn; auto.
  unfold handleMessage, isFinalOf. cbn.
  destruct (onTranscript p); [| reflexivity].
  now destruct fin as [[|] |].
Qed.

Lemma append_assoc3 (a b c : string) : (a ++ b) ++ c = a ++ (b ++ c).
Proof. induction a as [| x a IH]; cbn; [reflexivity | now rewrite IH]. Qed.

Lemma append_empty_r (a : string) : a ++ "" = a.
Proof. induction a as [| x a IH]; cbn; [reflexivity | now rewrite IH]. Qed.

Lemma finals_none (calls : list (string * bool)) :
  existsb snd calls = false -> finals calls = "".
Proof.
  induction calls as [| [text [|]] calls IH]; cbn; auto; discriminate.
Qed.

Section Trim.

Variable trim : string -> string.

Local Abbreviation handleCalls :=
  (fold_left (fun st c => handleTranscript trim st (fst c) (snd c))).

Lemma hook_ref (calls : list (string * bool)) :
  forall st,
    transcriptRef (handleCalls calls st) = transcriptRef st ++ finals calls.
Proof.
  induction calls as [| [text isFinal] calls IH]; intro st.
  - cbn. now rewrite append_empty_r.
  - cbn [fold_left fst snd]. rewrite IH. unfold handleTranscript.
    destruct isFinal; cbn [transcriptRef finals]; [| reflexivity].
    now rewrite !append_assoc3.
Qed.

(** X24: the hook accumulates final transcripts and shows the newest interim
    one.  After any sequence of sink calls, [transcriptRef] is what it was
    followed by the texts of the final calls, each followed by one
    space, in order; the interim text is the text of the last call when
    that call was interim and empty when it was final; [transcript] is the
    trimmed [transcriptRef] once a final call has come; the error is
    untouched. *)
Theorem hook_accumulates_final_transcripts
        (calls : list (string * bool)) (st : State) :
  let st' := handleCalls calls st in
  transcriptRef st' = transcriptRef st ++ finals calls
  /\ interimTranscript st' = interimAfter (interimTranscript st) calls
  /\ transcript st'
     = (if existsb snd calls then trim (transcriptRef st') else transcript st)
  /\ error st' = error st.
Proof.
  cbv zeta. split; [apply hook_ref |].
  revert st. induction calls as [| [text isFinal] calls IH]; intro st.
  - cbn. auto.
  - cbn [fold_left fst snd existsb].
    destruct (IH (handleTranscript trim st text isFinal)) as [I2 [I3 I4]].
    rewrite I2, I3, I4. unfold handleTranscript at 2 4 5 6.
    destruct isFinal;
      cbn [transcriptRef interimTranscript transcript error interimAfter orb];
      repeat split; auto.
    destruct (existsb snd calls) eqn:E; [reflexivity |].
    rewrite hook_ref, (finals_none calls E), append_empty_r. reflexivity.
Qed.

(** X25: end to end, from Deepgram's messages to the hook.  With the hook's
    callbacks registered, after any sequence of Deepgram messages
    [transcriptRef] is the texts of the [Results] messages that are final and
    not empty, each followed by a space, in order of arrival: interim
    results, empty results and other messages add nothing to it. *)
Theorem final_results_make_the_transcript
        (p : Provider) (msgs : list DeepgramMessage) :
  onTranscript p = true ->
  transcriptRef (fold_left (receive trim p) msgs cleared)
  = finals (map (fun m => (transcriptOf m, isFinalOf m))
                (filter (fun m => match relay m with
                                  | Some _ => true
                                  | None => false
                                  end) msgs)).
Proof.
  intro Hs.
  assert (G : forall st,
             fold_left (receive trim p) msgs st
             = handleCalls
                 (map (fun m => (transcriptOf m, isFinalOf m))
                      (filter (fun m => match relay m with
                                        | Some _ => true
                                        | None => false
                                        end) msgs)) st).
  { induction msgs as [| m msgs IH]; intro st; [reflexivity |].
    cbn [fold_left filter]. rewrite IH. unfold receive at 1.
    pose proof (relay_handled p m) as R.
    destruct (relay m) as [ev |]; [| reflexivity].
    cbn [map fold_left fst snd]. rewrite R, Hs. reflexivity. }
  rewrite G, hook_ref. reflexivity.
Qed.

End Trim.

Lemma final_results_make_the_transcript_witness :
  transcriptRef
    (fold_left (receive (fun s => s) (connected true true true))
               [mkDeepgram Results (Some "take two") (Some true);
                mkDeepgram Results (Some "tab") (Some false);
                mkDeepgram Results (Some "") (Some true);
                mkDeepgram Metadata None None;
                mkDeepgram Results (Some "tablets") (Some true)]
               cleared)
  = "take two tablets ".
Proof.
  apply (final_results_make_the_transcript
           (fun s => s) (connected true true true)
           [mkDeepgram Results (Some "take two") (Some true);
            mkDeepgram Results (Some "tab") (Some false);
            mkDeepgram Results (Some "") (Some true);
            mkDeepgram Metadata None None;
            mkDeepgram Results (Some "tablets") (Some true)]).
  reflexivity.
Defined.

End PipelineFacts.
